(** * A shallow embedding of the simulation core of [game.js]

    The embedding follows class [GeometryDashGame]: the world state is a
    record [Game], every method that changes [this] is a function from
    [Game] to [Game], and the host (browser) supplies what the methods
    read from outside: the results of [Math.random()], the value of
    [Date.now()] and the events (key presses, button clicks, animation
    frames, touches, resizes).

    Numbers.  A JavaScript number is modelled as an exact rational ([Q]):
    the arithmetic of the source is kept operation for operation, its
    rounding is not modelled.  Equality of two numbers is therefore [==]
    ([Qeq]).  Counters that only ever hold integers in the source (the
    score, the distance, millisecond time stamps) are [Z].

    Rendering, audio and the DOM are left out: nothing in the simulation
    reads them back. *)

From Stdlib Require Import QArith Qabs Qround ZArith List Bool String Lia Lqa Sorted.
Import ListNotations.

Open Scope Q_scope.

(** ** Comparisons of numbers as booleans *)

Definition Qlt_bool (a b : Q) : bool := negb (Qle_bool b a).

Notation "a <? b" := (Qlt_bool a b) : Q_scope.
Notation "a <=? b" := (Qle_bool a b) : Q_scope.
Notation "a >? b" := (Qlt_bool b a) (at level 70) : Q_scope.
Notation "a >=? b" := (Qle_bool b a) (at level 70) : Q_scope.
Notation "a =? b" := (Qeq_bool a b) : Q_scope.

(** ** Data model *)

Module Point.
Record t : Type := mk { x : Q; y : Q }.
End Point.

Module Player.
Record t : Type := mk {
  x : Q;
  y : Q;
  width : Q;
  height : Q;
  velocityY : Q;
  isGrounded : bool;
  rotation : Q;
  color : string
}.

Definition set_x (p : t) (v : Q) : t :=
  mk v (y p) (width p) (height p) (velocityY p) (isGrounded p) (rotation p) (color p).
Definition set_y (p : t) (v : Q) : t :=
  mk (x p) v (width p) (height p) (velocityY p) (isGrounded p) (rotation p) (color p).
Definition set_velocityY (p : t) (v : Q) : t :=
  mk (x p) (y p) (width p) (height p) v (isGrounded p) (rotation p) (color p).
Definition set_isGrounded (p : t) (v : bool) : t :=
  mk (x p) (y p) (width p) (height p) (velocityY p) v (rotation p) (color p).
Definition set_rotation (p : t) (v : Q) : t :=
  mk (x p) (y p) (width p) (height p) (velocityY p) (isGrounded p) v (color p).
End Player.

Inductive ObstacleType : Type := spike | block.

Module Obstacle.
Record t : Type := mk {
  x : Q;
  y : Q;
  width : Q;
  height : Q;
  type : ObstacleType;
  color : string
}.

Definition set_x (o : t) (v : Q) : t :=
  mk v (y o) (width o) (height o) (type o) (color o).
End Obstacle.

Module Platform.
Record t : Type := mk {
  x : Q;
  y : Q;
  width : Q;
  height : Q;
  color : string
}.

Definition set_x (p : t) (v : Q) : t :=
  mk v (y p) (width p) (height p) (color p).
End Platform.

Module Particle.
Record t : Type := mk {
  x : Q;
  y : Q;
  vx : Q;
  vy : Q;
  life : Q;
  decay : Q;
  color : string;
  size : Q
}.
End Particle.

Inductive GameState : Type := menu | playing | gameOver.

(** The fields of [this].  [keys] is the object filled by the keyboard
    listeners, as an association list from key code to the stored boolean
    (newest binding first).  [randomCalls] is not a field of the source: it
    counts the calls of [Math.random()] made so far, so that each call reads
    the next value of the host's random sequence. *)
Record Game : Type := mkGame {
  gameWidth : Q;
  gameHeight : Q;
  touchStartTime : Z;
  touchCooldown : Z;
  gameState : GameState;
  score : Z;
  distance : Z;
  gameSpeed : Q;
  gravity : Q;
  jumpForce : Q;
  player : Player.t;
  obstacles : list Obstacle.t;
  platforms : list Platform.t;
  particles : list Particle.t;
  cameraX : Q;
  keys : list (string * bool);
  autoMode : bool;
  lastAutoJumpTime : Z;
  autoJumpCooldown : Z;
  randomCalls : nat
}.

Definition set_gameWidth (g : Game) (v : Q) : Game :=
  mkGame v (gameHeight g) (touchStartTime g) (touchCooldown g) (gameState g) (score g)
    (distance g) (gameSpeed g) (gravity g) (jumpForce g) (player g) (obstacles g)
    (platforms g) (particles g) (cameraX g) (keys g) (autoMode g) (lastAutoJumpTime g)
    (autoJumpCooldown g) (randomCalls g).
Definition set_gameHeight (g : Game) (v : Q) : Game :=
  mkGame (gameWidth g) v (touchStartTime g) (touchCooldown g) (gameState g) (score g)
    (distance g) (gameSpeed g) (gravity g) (jumpForce g) (player g) (obstacles g)
    (platforms g) (particles g) (cameraX g) (keys g) (autoMode g) (lastAutoJumpTime g)
    (autoJumpCooldown g) (randomCalls g).
Definition set_touchStartTime (g : Game) (v : Z) : Game :=
  mkGame (gameWidth g) (gameHeight g) v (touchCooldown g) (gameState g) (score g)
    (distance g) (gameSpeed g) (gravity g) (jumpForce g) (player g) (obstacles g)
    (platforms g) (particles g) (cameraX g) (keys g) (autoMode g) (lastAutoJumpTime g)
    (autoJumpCooldown g) (randomCalls g).
Definition set_gameState (g : Game) (v : GameState) : Game :=
  mkGame (gameWidth g) (gameHeight g) (touchStartTime g) (touchCooldown g) v (score g)
    (distance g) (gameSpeed g) (gravity g) (jumpForce g) (player g) (obstacles g)
    (platforms g) (particles g) (cameraX g) (keys g) (autoMode g) (lastAutoJumpTime g)
    (autoJumpCooldown g) (randomCalls g).
Definition set_score (g : Game) (v : Z) : Game :=
  mkGame (gameWidth g) (gameHeight g) (touchStartTime g) (touchCooldown g) (gameState g)
    v (distance g) (gameSpeed g) (gravity g) (jumpForce g) (player g) (obstacles g)
    (platforms g) (particles g) (cameraX g) (keys g) (autoMode g) (lastAutoJumpTime g)
    (autoJumpCooldown g) (randomCalls g).
Definition set_distance (g : Game) (v : Z) : Game :=
  mkGame (gameWidth g) (gameHeight g) (touchStartTime g) (touchCooldown g) (gameState g)
    (score g) v (gameSpeed g) (gravity g) (jumpForce g) (player g) (obstacles g)
    (platforms g) (particles g) (cameraX g) (keys g) (autoMode g) (lastAutoJumpTime g)
    (autoJumpCooldown g) (randomCalls g).
Definition set_gameSpeed (g : Game) (v : Q) : Game :=
  mkGame (gameWidth g) (gameHeight g) (touchStartTime g) (touchCooldown g) (gameState g)
    (score g) (distance g) v (gravity g) (jumpForce g) (player g) (obstacles g)
    (platforms g) (particles g) (cameraX g) (keys g) (autoMode g) (lastAutoJumpTime g)
    (autoJumpCooldown g) (randomCalls g).
Definition set_player (g : Game) (v : Player.t) : Game :=
  mkGame (gameWidth g) (gameHeight g) (touchStartTime g) (touchCooldown g) (gameState g)
    (score g) (distance g) (gameSpeed g) (gravity g) (jumpForce g) v (obstacles g)
    (platforms g) (particles g) (cameraX g) (keys g) (autoMode g) (lastAutoJumpTime g)
    (autoJumpCooldown g) (randomCalls g).
Definition set_obstacles (g : Game) (v : list Obstacle.t) : Game :=
  mkGame (gameWidth g) (gameHeight g) (touchStartTime g) (touchCooldown g) (gameState g)
    (score g) (distance g) (gameSpeed g) (gravity g) (jumpForce g) (player g) v
    (platforms g) (particles g) (cameraX g) (keys g) (autoMode g) (lastAutoJumpTime g)
    (autoJumpCooldown g) (randomCalls g).
Definition set_platforms (g : Game) (v : list Platform.t) : Game :=
  mkGame (gameWidth g) (gameHeight g) (touchStartTime g) (touchCooldown g) (gameState g)
    (score g) (distance g) (gameSpeed g) (gravity g) (jumpForce g) (player g)
    (obstacles g) v (particles g) (cameraX g) (keys g) (autoMode g) (lastAutoJumpTime g)
    (autoJumpCooldown g) (randomCalls g).
Definition set_particles (g : Game) (v : list Particle.t) : Game :=
  mkGame (gameWidth g) (gameHeight g) (touchStartTime g) (touchCooldown g) (gameState g)
    (score g) (distance g) (gameSpeed g) (gravity g) (jumpForce g) (player g)
    (obstacles g) (platforms g) v (cameraX g) (keys g) (autoMode g) (lastAutoJumpTime g)
    (autoJumpCooldown g) (randomCalls g).
Definition set_cameraX (g : Game) (v : Q) : Game :=
  mkGame (gameWidth g) (gameHeight g) (touchStartTime g) (touchCooldown g) (gameState g)
    (score g) (distance g) (gameSpeed g) (gravity g) (jumpForce g) (player g)
    (obstacles g) (platforms g) (particles g) v (keys g) (autoMode g)
    (lastAutoJumpTime g) (autoJumpCooldown g) (randomCalls g).
Definition set_keys (g : Game) (v : list (string * bool)) : Game :=
  mkGame (gameWidth g) (gameHeight g) (touchStartTime g) (touchCooldown g) (gameState g)
    (score g) (distance g) (gameSpeed g) (gravity g) (jumpForce g) (player g)
    (obstacles g) (platforms g) (particles g) (cameraX g) v (autoMode g)
    (lastAutoJumpTime g) (autoJumpCooldown g) (randomCalls g).
Definition set_autoMode (g : Game) (v : bool) : Game :=
  mkGame (gameWidth g) (gameHeight g) (touchStartTime g) (touchCooldown g) (gameState g)
    (score g) (distance g) (gameSpeed g) (gravity g) (jumpForce g) (player g)
    (obstacles g) (platforms g) (particles g) (cameraX g) (keys g) v
    (lastAutoJumpTime g) (autoJumpCooldown g) (randomCalls g).
Definition set_lastAutoJumpTime (g : Game) (v : Z) : Game :=
  mkGame (gameWidth g) (gameHeight g) (touchStartTime g) (touchCooldown g) (gameState g)
    (score g) (distance g) (gameSpeed g) (gravity g) (jumpForce g) (player g)
    (obstacles g) (platforms g) (particles g) (cameraX g) (keys g) (autoMode g) v
    (autoJumpCooldown g) (randomCalls g).
Definition set_randomCalls (g : Game) (v : nat) : Game :=
  mkGame (gameWidth g) (gameHeight g) (touchStartTime g) (touchCooldown g) (gameState g)
    (score g) (distance g) (gameSpeed g) (gravity g) (jumpForce g) (player g)
    (obstacles g) (platforms g) (particles g) (cameraX g) (keys g) (autoMode g)
    (lastAutoJumpTime g) (autoJumpCooldown g) v.

(** ** Geometry kernel *)

(** [linesIntersect(p1, p2, p3, p4)]: the parametric intersection test.
    The division is reached only behind the [denominator === 0] guard. *)
Definition linesIntersect_denominator (p1 p2 p3 p4 : Point.t) : Q :=
  (Point.y p4 - Point.y p3) * (Point.x p2 - Point.x p1)
  - (Point.x p4 - Point.x p3) * (Point.y p2 - Point.y p1).

Definition linesIntersect_ua (p1 p2 p3 p4 : Point.t) : Q :=
  ((Point.x p4 - Point.x p3) * (Point.y p1 - Point.y p3)
   - (Point.y p4 - Point.y p3) * (Point.x p1 - Point.x p3))
  / linesIntersect_denominator p1 p2 p3 p4.

Definition linesIntersect_ub (p1 p2 p3 p4 : Point.t) : Q :=
  ((Point.x p2 - Point.x p1) * (Point.y p1 - Point.y p3)
   - (Point.y p2 - Point.y p1) * (Point.x p1 - Point.x p3))
  / linesIntersect_denominator p1 p2 p3 p4.

Definition linesIntersect (p1 p2 p3 p4 : Point.t) : bool :=
  let denominator := linesIntersect_denominator p1 p2 p3 p4 in
  if denominator =? 0 then false
  else
    let ua := linesIntersect_ua p1 p2 p3 p4 in
    let ub := linesIntersect_ub p1 p2 p3 p4 in
    (ua >=? 0) && (ua <=? 1) && (ub >=? 0) && (ub <=? 1).

(** Division written without a guard.  In JavaScript [n / 0] is [NaN] or an
    infinity, for which [Q] has no value: [None] stands for such a result. *)
Definition divide (n d : Q) : option Q :=
  if d =? 0 then None else Some (n / d).

Definition Triangle : Type := (Point.t * Point.t * Point.t)%type.

Definition pointInTriangle_denominator (triangle : Triangle) : Q :=
  let '(p1, p2, p3) := triangle in
  (Point.y p2 - Point.y p3) * (Point.x p1 - Point.x p3)
  + (Point.x p3 - Point.x p2) * (Point.y p1 - Point.y p3).

(** [pointInTriangle(point, triangle)]: barycentric coordinates.  The result
    is [None] when the two quotients are not numbers of [Q], that is when the
    denominator is zero. *)
Definition pointInTriangle (point : Point.t) (triangle : Triangle) : option bool :=
  let '(p1, p2, p3) := triangle in
  let denominator := pointInTriangle_denominator triangle in
  match
    divide ((Point.y p2 - Point.y p3) * (Point.x point - Point.x p3)
            + (Point.x p3 - Point.x p2) * (Point.y point - Point.y p3)) denominator,
    divide ((Point.y p3 - Point.y p1) * (Point.x point - Point.x p3)
            + (Point.x p1 - Point.x p3) * (Point.y point - Point.y p3)) denominator
  with
  | Some a, Some b =>
      let c := 1 - a - b in
      Some ((a >=? 0) && (b >=? 0) && (c >=? 0))
  | _, _ => None
  end.

(** The value an [if] sees.  With a zero denominator the source computes
    [a] and [b] as [NaN] or infinities; [a >= 0 && b >= 0] then forces both
    to be [+Infinity], which makes [c] equal to [-Infinity]: the conjunction
    is false in every case. *)
Definition truthy (r : option bool) : bool :=
  match r with
  | Some b => b
  | None => false
  end.

(** ** Array helpers *)

(** [a[i]] for a number [i]: [None] is JavaScript's [undefined]. *)
Definition arrayGet {A : Type} (a : list A) (i : Z) : option A :=
  if (i <? 0)%Z then None else nth_error a (Z.to_nat i).

(** [a.splice(i, 1)]. *)
Definition splice1 {A : Type} (i : nat) (a : list A) : list A :=
  firstn i a ++ skipn (S i) a.

(** Assignment to a field of [a[i]], seen as the replacement of [a[i]]. *)
Definition replaceAt {A : Type} (i : nat) (v : A) (a : list A) : list A :=
  firstn i a ++ v :: skipn (S i) a.

(** [this.keys[code] || false]. *)
Fixpoint keyPressed (ks : list (string * bool)) (code : string) : bool :=
  match ks with
  | [] => false
  | (c, b) :: rest => if String.eqb c code then b else keyPressed rest code
  end.

Section Simulation.

(** The host's random sequence: [random n] is the value of the call
    number [n] of [Math.random()]. *)
Variable random : nat -> Q.

Definition nextRandom (g : Game) : Q * Game :=
  (random (randomCalls g), set_randomCalls g (S (randomCalls g))).

(** ** World state store: construction, start, restart *)

(** The constructor.  [setupResponsiveCanvas] runs first and stores the
    canvas size; its [gameState === 'playing'] test fails at that point, so
    the player keeps the [y: 0] of the object literal.  [showStartScreen]
    sets the state to [menu]. *)
Definition newGame (width height : Q) : Game :=
  {| gameWidth := width;
     gameHeight := height;
     touchStartTime := 0;
     touchCooldown := 200;
     gameState := menu;
     score := 0;
     distance := 0;
     gameSpeed := 5;
     gravity := 0.8;
     jumpForce := -15;
     player := Player.mk 100 0 40 40 0 false 0 "#00ff88";
     obstacles := [];
     platforms := [];
     particles := [];
     cameraX := 0;
     keys := [];
     autoMode := false;
     lastAutoJumpTime := 0;
     autoJumpCooldown := 800;
     randomCalls := 0 |}.

(** The [resizeCanvas] closure of [setupResponsiveCanvas]. *)
Definition resizeCanvas (g : Game) (width height : Q) : Game :=
  let g := set_gameHeight (set_gameWidth g width) height in
  match gameState g with
  | playing =>
      set_player g (Player.set_y (Player.set_x (player g) 100) (gameHeight g - 100))
  | _ => g
  end.

Definition startGame (g : Game) : Game := set_gameState g playing.

Definition restartGame (g : Game) : Game :=
  let g := set_score g 0 in
  let g := set_distance g 0 in
  let g := set_gameSpeed g 5 in
  let g := set_cameraX g 0 in
  let p := player g in
  let p := Player.set_x p 100 in
  let p := Player.set_y p (gameHeight g - 100) in
  let p := Player.set_velocityY p 0 in
  let p := Player.set_isGrounded p false in
  let p := Player.set_rotation p 0 in
  let g := set_player g p in
  let g := set_obstacles g [] in
  let g := set_platforms g [] in
  let g := set_particles g [] in
  startGame g.

(** [gameOver()]; the name [gameOver] is the phase's. *)
Definition gameOver_ (g : Game) : Game := set_gameState g gameOver.

(** ** Particles *)

Fixpoint addParticles_loop (n : nat) (g : Game) (x y : Q) (color : string) : Game :=
  match n with
  | O => g
  | S n' =>
      let (r1, g) := nextRandom g in
      let (r2, g) := nextRandom g in
      let (r3, g) := nextRandom g in
      let particle :=
        Particle.mk x y ((r1 - 0.5) * 10) ((r2 - 0.5) * 10) 1.0 0.02 color (r3 * 4 + 2) in
      addParticles_loop n' (set_particles g (particles g ++ [particle])) x y color
  end.

Definition addParticles (g : Game) (x y : Q) (color : string) : Game :=
  addParticles_loop 8 g x y color.

(** The loop of [updateParticles], from the last index down to 0; [n] is
    the number of indices still to visit. *)
Fixpoint updateParticles_loop (n : nat) (ps : list Particle.t) : list Particle.t :=
  match n with
  | O => ps
  | S i =>
      match nth_error ps i with
      | None => updateParticles_loop i ps
      | Some p =>
          let p' :=
            Particle.mk (Particle.x p + Particle.vx p) (Particle.y p + Particle.vy p)
              (Particle.vx p) (Particle.vy p) (Particle.life p - Particle.decay p)
              (Particle.decay p) (Particle.color p) (Particle.size p) in
          if Particle.life p' <=? 0
          then updateParticles_loop i (splice1 i ps)
          else updateParticles_loop i (replaceAt i p' ps)
      end
  end.

Definition updateParticles (g : Game) : Game :=
  set_particles g (updateParticles_loop (List.length (particles g)) (particles g)).

(** ** Physics integrator *)

Definition jump (g : Game) : Game :=
  if Player.isGrounded (player g) then
    let p := Player.set_velocityY (player g) (jumpForce g) in
    let p := Player.set_isGrounded p false in
    let g := set_player g p in
    addParticles g (Player.x p + Player.width p / 2) (Player.y p + Player.height p)
      "#00ff88"
  else g.

Definition checkIfGrounded (g : Game) : bool :=
  let p := player g in
  if Player.y p + Player.height p >=? gameHeight g - 50 then true
  else if
    existsb
      (fun obstacle =>
         match Obstacle.type obstacle with
         | block =>
             let obstacleScreenX := Obstacle.x obstacle - cameraX g in
             (Player.x p <? obstacleScreenX + Obstacle.width obstacle)
             && (Player.x p + Player.width p >? obstacleScreenX)
             && (Qabs (Player.y p + Player.height p - Obstacle.y obstacle) <? 5)
         | spike => false
         end)
      (obstacles g)
  then true
  else
    existsb
      (fun platform =>
         let platformScreenX := Platform.x platform - cameraX g in
         (Player.x p <? platformScreenX + Platform.width platform)
         && (Player.x p + Player.width p >? platformScreenX)
         && (Qabs (Player.y p + Player.height p - Platform.y platform) <? 5))
      (platforms g).

Definition updatePlayer (g : Game) : Game :=
  let p := player g in
  let p := Player.set_velocityY p (Player.velocityY p + gravity g) in
  let p := Player.set_y p (Player.y p + Player.velocityY p) in
  let p :=
    if Player.y p + Player.height p >? gameHeight g - 50
    then Player.set_velocityY (Player.set_y p (gameHeight g - 50 - Player.height p)) 0
    else p in
  let g := set_player g p in
  let p := Player.set_isGrounded p (checkIfGrounded g) in
  let p := Player.set_rotation p (Player.rotation p + 0.2) in
  set_player g p.

(** ** Spawn planner *)

Inductive FeatureType : Type := f_spike | f_block | f_platform.

(** [getSpikePositions]: the [y] of each candidate position. *)
Definition getSpikePositions (g : Game) : list Q :=
  let positions := [gameHeight g - 80] in
  let positions :=
    positions
    ++ map (fun platform => Platform.y platform - 40)
         (filter
            (fun platform =>
               Platform.x platform - cameraX g >? Player.x (player g) + 100)
            (platforms g)) in
  let positions :=
    positions
    ++ map (fun obstacle => Obstacle.y obstacle - 40)
         (filter
            (fun obstacle =>
               match Obstacle.type obstacle with
               | block => Obstacle.x obstacle - cameraX g >? Player.x (player g) + 100
               | spike => false
               end)
            (obstacles g)) in
  match positions with
  | [] => [gameHeight g - 80]
  | _ => positions
  end.

Definition newSpike (x y : Q) : Obstacle.t :=
  Obstacle.mk x y 40 40 spike "#ff4444".

Definition pushObstacle (g : Game) (o : Obstacle.t) : Game :=
  set_obstacles g (obstacles g ++ [o]).

Definition pushPlatform (g : Game) (p : Platform.t) : Game :=
  set_platforms g (platforms g ++ [p]).

(** [generateObstacles].  An index computed from [Math.random()] is always
    inside its array, since [0 <= Math.random() < 1]; the [None] cases below
    (JavaScript's [undefined]) are there to make the function total and emit
    nothing. *)
Definition generateObstacles (g : Game) : Game :=
  let (r, g) := nextRandom g in
  if r <? 0.03 then
    let obstacleTypes := [f_spike; f_block; f_platform] in
    let (r, g) := nextRandom g in
    match arrayGet obstacleTypes (Qfloor (r * inject_Z (Z.of_nat (List.length obstacleTypes)))) with
    | Some f_spike =>
        let spikePositions := getSpikePositions g in
        let (r, g) := nextRandom g in
        match
          arrayGet spikePositions
            (Qfloor (r * inject_Z (Z.of_nat (List.length spikePositions))))
        with
        | Some position_y =>
            let (spikePattern, g) := nextRandom g in
            if spikePattern <? 0.7 then
              pushObstacle g (newSpike (gameWidth g + cameraX g) position_y)
            else if spikePattern <? 0.85 then
              let g := pushObstacle g (newSpike (gameWidth g + cameraX g) position_y) in
              pushObstacle g (newSpike (gameWidth g + cameraX g + 50) position_y)
            else
              let g := pushObstacle g (newSpike (gameWidth g + cameraX g) position_y) in
              let g := pushObstacle g (newSpike (gameWidth g + cameraX g + 50) position_y) in
              pushObstacle g (newSpike (gameWidth g + cameraX g + 100) position_y)
        | None => g
        end
    | Some f_block =>
        let heights := [120; 150; 180] in
        let (r, g) := nextRandom g in
        match arrayGet heights (Qfloor (r * inject_Z (Z.of_nat (List.length heights)))) with
        | Some height =>
            pushObstacle g
              (Obstacle.mk (gameWidth g + cameraX g) (gameHeight g - height) 40 60 block
                 "#ffaa00")
        | None => g
        end
    | Some f_platform =>
        let heights := [150; 200; 250] in
        let (r, g) := nextRandom g in
        let width := if r <? 0.5 then 80 else 120 in
        let (r, g) := nextRandom g in
        match arrayGet heights (Qfloor (r * inject_Z (Z.of_nat (List.length heights)))) with
        | Some height =>
            pushPlatform g
              (Platform.mk (gameWidth g + cameraX g) (gameHeight g - height) width 20
                 "#00aaff")
        | None => g
        end
    | None => g
    end
  else g.

(** What one call of [generateObstacles] appended to each list. *)
Definition spawnedObstacles (g : Game) : list Obstacle.t :=
  skipn (List.length (obstacles g)) (obstacles (generateObstacles g)).

Definition spawnedPlatforms (g : Game) : list Platform.t :=
  skipn (List.length (platforms g)) (platforms (generateObstacles g)).

(** ** Scroll and cull *)

(** The first loop of [updateObstacles], from the last index down to 0:
    [n] is the number of indices still to visit, the index visited is
    [n - 1].  It is always inside the array ([None] cannot arise). *)
Fixpoint updateObstacles_loop (n : nat) (speed camera : Q)
    (obs : list Obstacle.t) (sc : Z) : list Obstacle.t * Z :=
  match n with
  | O => (obs, sc)
  | S i =>
      match nth_error obs i with
      | None => updateObstacles_loop i speed camera obs sc
      | Some obstacle =>
          let obstacle := Obstacle.set_x obstacle (Obstacle.x obstacle - speed) in
          if Obstacle.x obstacle + Obstacle.width obstacle <? camera
          then updateObstacles_loop i speed camera (splice1 i obs) (sc + 10)%Z
          else updateObstacles_loop i speed camera (replaceAt i obstacle obs) sc
      end
  end.

(** Its second loop. *)
Fixpoint updatePlatforms_loop (n : nat) (speed camera : Q)
    (pls : list Platform.t) : list Platform.t :=
  match n with
  | O => pls
  | S i =>
      match nth_error pls i with
      | None => updatePlatforms_loop i speed camera pls
      | Some platform =>
          let platform := Platform.set_x platform (Platform.x platform - speed) in
          if Platform.x platform + Platform.width platform <? camera
          then updatePlatforms_loop i speed camera (splice1 i pls)
          else updatePlatforms_loop i speed camera (replaceAt i platform pls)
      end
  end.

Definition updateObstacles (g : Game) : Game :=
  let (obs, sc) :=
    updateObstacles_loop (List.length (obstacles g)) (gameSpeed g) (cameraX g)
      (obstacles g) (score g) in
  let g := set_score (set_obstacles g obs) sc in
  set_platforms g
    (updatePlatforms_loop (List.length (platforms g)) (gameSpeed g) (cameraX g)
       (platforms g)).

(** ** Collision engine *)

Definition trianglePoints (g : Game) (spike : Obstacle.t) : Triangle :=
  let spikeX := Obstacle.x spike - cameraX g in
  let spikeY := Obstacle.y spike in
  let spikeWidth := Obstacle.width spike in
  let spikeHeight := Obstacle.height spike in
  (Point.mk spikeX (spikeY + spikeHeight),
   Point.mk (spikeX + spikeWidth / 2) spikeY,
   Point.mk (spikeX + spikeWidth) (spikeY + spikeHeight)).

Definition checkSpikeCollision (g : Game) (spike : Obstacle.t) : bool :=
  let p := player g in
  let '(t0, t1, t2) := trianglePoints g spike in
  let playerCorners :=
    [ Point.mk (Player.x p) (Player.y p);
      Point.mk (Player.x p + Player.width p) (Player.y p);
      Point.mk (Player.x p) (Player.y p + Player.height p);
      Point.mk (Player.x p + Player.width p) (Player.y p + Player.height p) ] in
  if existsb (fun corner => truthy (pointInTriangle corner (t0, t1, t2))) playerCorners
  then true
  else if
    existsb
      (fun point =>
         (Point.x point >=? Player.x p)
         && (Point.x point <=? Player.x p + Player.width p)
         && (Point.y point >=? Player.y p)
         && (Point.y point <=? Player.y p + Player.height p))
      [t0; t1; t2]
  then true
  else
    let triangleEdges := [(t0, t1); (t1, t2); (t2, t0)] in
    let playerEdges :=
      [ (Point.mk (Player.x p) (Player.y p),
         Point.mk (Player.x p + Player.width p) (Player.y p));
        (Point.mk (Player.x p + Player.width p) (Player.y p),
         Point.mk (Player.x p + Player.width p) (Player.y p + Player.height p));
        (Point.mk (Player.x p + Player.width p) (Player.y p + Player.height p),
         Point.mk (Player.x p) (Player.y p + Player.height p));
        (Point.mk (Player.x p) (Player.y p + Player.height p),
         Point.mk (Player.x p) (Player.y p)) ] in
    existsb
      (fun triangleEdge =>
         existsb
           (fun playerEdge =>
              linesIntersect (fst triangleEdge) (snd triangleEdge)
                (fst playerEdge) (snd playerEdge))
           playerEdges)
      triangleEdges.

(** The first test of the block branch of [checkCollisions]. *)
Definition blockLanding (g : Game) (obstacle : Obstacle.t) : bool :=
  let p := player g in
  let obstacleScreenX := Obstacle.x obstacle - cameraX g in
  (Player.x p <? obstacleScreenX + Obstacle.width obstacle)
  && (Player.x p + Player.width p >? obstacleScreenX)
  && (Player.y p + Player.height p >=? Obstacle.y obstacle)
  && (Player.y p + Player.height p <=? Obstacle.y obstacle + Obstacle.height obstacle + 5)
  && (Player.velocityY p >=? 0).

(** Its second test, reached when the first fails. *)
Definition blockOverlap (g : Game) (obstacle : Obstacle.t) : bool :=
  let p := player g in
  let obstacleScreenX := Obstacle.x obstacle - cameraX g in
  (Player.x p <? obstacleScreenX + Obstacle.width obstacle)
  && (Player.x p + Player.width p >? obstacleScreenX)
  && (Player.y p <? Obstacle.y obstacle + Obstacle.height obstacle)
  && (Player.y p + Player.height p >? Obstacle.y obstacle).

(** The statements run when a landing test succeeds on a surface whose top
    is [surface_y]. *)
Definition land (g : Game) (surface_y : Q) (color : string) : Game :=
  let p := Player.set_y (player g) (surface_y - Player.height (player g)) in
  let p := Player.set_velocityY p 0 in
  let g := set_player g p in
  addParticles g (Player.x p + Player.width p / 2) (Player.y p + Player.height p) color.

(** The body of the obstacle loop of [checkCollisions].  The boolean is
    true when the body ran [gameOver()] and returned from the method. *)
Definition checkObstacle (g : Game) (obstacle : Obstacle.t) : Game * bool :=
  match Obstacle.type obstacle with
  | spike =>
      if checkSpikeCollision g obstacle then (gameOver_ g, true) else (g, false)
  | block =>
      if blockLanding g obstacle then (land g (Obstacle.y obstacle) "#ffaa00", false)
      else if blockOverlap g obstacle then (gameOver_ g, true)
      else (g, false)
  end.

Fixpoint checkObstacles (g : Game) (obs : list Obstacle.t) : Game * bool :=
  match obs with
  | [] => (g, false)
  | obstacle :: rest =>
      let (g', stop) := checkObstacle g obstacle in
      if stop then (g', true) else checkObstacles g' rest
  end.

Definition platformLanding (g : Game) (platform : Platform.t) : bool :=
  let p := player g in
  let platformScreenX := Platform.x platform - cameraX g in
  (Player.x p <? platformScreenX + Platform.width platform)
  && (Player.x p + Player.width p >? platformScreenX)
  && (Player.y p + Player.height p >=? Platform.y platform)
  && (Player.y p + Player.height p <=? Platform.y platform + Platform.height platform + 5)
  && (Player.velocityY p >=? 0).

Definition checkPlatform (g : Game) (platform : Platform.t) : Game :=
  if platformLanding g platform then land g (Platform.y platform) "#00aaff" else g.

Fixpoint checkPlatforms (g : Game) (pls : list Platform.t) : Game :=
  match pls with
  | [] => g
  | platform :: rest => checkPlatforms (checkPlatform g platform) rest
  end.

Definition checkCollisions (g : Game) : Game :=
  let (g', stop) := checkObstacles g (obstacles g) in
  if stop then g' else checkPlatforms g' (platforms g').

(** ** Camera *)

Definition updateCamera (g : Game) : Game :=
  let g := set_cameraX g (cameraX g + gameSpeed g) in
  let g := set_distance g (Qfloor (cameraX g / 10)) in
  set_gameSpeed g (gameSpeed g + 0.001).

(** ** Autoplay controller *)

(** [autoJump], with [currentTime] the value read from [Date.now()].  The
    boolean tells whether the controller called [jump()]. *)
Definition autoJump (g : Game) (currentTime : Z) : Game * bool :=
  if negb (Player.isGrounded (player g)) then (g, false)
  else if (currentTime - lastAutoJumpTime g <? autoJumpCooldown g)%Z then (g, false)
  else
    let immediateDangerDistance := 40 in
    let p := player g in
    let issue := (set_lastAutoJumpTime (jump g) currentTime, true) in
    if
      existsb
        (fun obstacle =>
           let distance := Obstacle.x obstacle - cameraX g - Player.x p in
           match Obstacle.type obstacle with
           | spike => (distance >? 0) && (distance <? immediateDangerDistance)
           | block => false
           end)
        (obstacles g)
    then issue
    else if
      (Player.y p >=? gameHeight g - 100)
      && existsb
           (fun obstacle =>
              let distance := Obstacle.x obstacle - cameraX g - Player.x p in
              match Obstacle.type obstacle with
              | block =>
                  (distance >? 0) && (distance <? immediateDangerDistance)
                  && (let blockTop := Obstacle.y obstacle in
                      let playerBottom := Player.y p + Player.height p in
                      blockTop <? playerBottom - 40)
              | spike => false
              end)
           (obstacles g)
    then issue
    else if Player.y p >=? gameHeight g - 100 then
      let gapCheckDistance := 30 in
      let hasGroundDirectlyAhead :=
        existsb
          (fun obstacle =>
             let distance := Obstacle.x obstacle - cameraX g - Player.x p in
             (distance >? 0) && (distance <? gapCheckDistance))
          (obstacles g) in
      if negb hasGroundDirectlyAhead then issue else (g, false)
    else (g, false).

(** ** Simulation driver *)

(** The state at the end of [checkCollisions()] within one call of
    [update()], for a game that is playing. *)
Definition tickUntilCollisions (g : Game) : Game :=
  let g := set_autoMode g (keyPressed (keys g) "KeyA") in
  let g := updatePlayer g in
  let g := generateObstacles g in
  let g := updateObstacles g in
  let g := updateParticles g in
  checkCollisions g.

(** [update()].  The boolean tells whether the autoplay controller
    called [jump()] during the call. *)
Definition update (g : Game) (now : Z) : Game * bool :=
  match gameState g with
  | playing =>
      let g := tickUntilCollisions g in
      let g := updateCamera g in
      if autoMode g then autoJump g now else (g, false)
  | _ => (g, false)
  end.

(** One tick, state only. *)
Definition tick (g : Game) (now : Z) : Game := fst (update g now).

(** What the host can do to a session: the listeners of [keydown],
    [keyup], the two buttons, [touchstart] and [resize], and one turn of
    [gameLoop], which calls [update()] with [now] the value [Date.now()]
    would return during the call. *)
Inductive Event : Type :=
| KeyDown (code : string)
| KeyUp (code : string)
| ClickStart
| ClickRestart
| TouchStart (now : Z)
| Resize (width height : Q)
| Frame (now : Z).

(** The effect of one event; the option is the time of the autoplay jump
    the event caused, if any. *)
Definition handle (g : Game) (e : Event) : Game * option Z :=
  match e with
  | KeyDown code =>
      let g := set_keys g ((code, true) :: keys g) in
      if String.eqb code "Space" then
        match gameState g with
        | playing => (jump g, None)
        | _ => (g, None)
        end
      else (g, None)
  | KeyUp code => (set_keys g ((code, false) :: keys g), None)
  | TouchStart currentTime =>
      if (currentTime - touchStartTime g <? touchCooldown g)%Z then (g, None)
      else
        let g := set_touchStartTime g currentTime in
        match gameState g with
        | playing => (jump g, None)
        | _ => (g, None)
        end
  | ClickStart => (startGame g, None)
  | ClickRestart => (restartGame g, None)
  | Resize width height => (resizeCanvas g width height, None)
  | Frame now =>
      let (g', jumped) := update g now in
      (g', if jumped then Some now else None)
  end.

(** A run: the final state and the times of the autoplay jumps, oldest
    first. *)
Fixpoint run (g : Game) (es : list Event) : Game * list Z :=
  match es with
  | [] => (g, [])
  | e :: rest =>
      let (g1, j) := handle g e in
      let (g2, js) := run g1 rest in
      (g2, match j with Some t => t :: js | None => js end)
  end.

End Simulation.

(** ** Vocabulary of the statements *)

(** [repose g st y vy gr ps k] is [g] with a new phase, a new vertical
    position, velocity and grounded flag of the player, new particles and a
    new count of random draws: all that the collision engine and [jump] can
    change. *)
Definition repose (g : Game) (st : GameState) (y vy : Q) (gr : bool)
    (ps : list Particle.t) (k : nat) : Game :=
  set_randomCalls
    (set_particles
       (set_player (set_gameState g st)
          (Player.set_isGrounded (Player.set_velocityY (Player.set_y (player g) y) vy) gr))
       ps)
    k.

(** [steady g g']: the fields that only the camera step, the autoplay
    controller and the host change are the same in [g] and [g']. *)
Definition steady (g g' : Game) : Prop :=
  gameWidth g' = gameWidth g
  /\ gameHeight g' = gameHeight g
  /\ distance g' = distance g
  /\ gameSpeed g' = gameSpeed g
  /\ gravity g' = gravity g
  /\ jumpForce g' = jumpForce g
  /\ cameraX g' = cameraX g
  /\ keys g' = keys g
  /\ lastAutoJumpTime g' = lastAutoJumpTime g
  /\ autoJumpCooldown g' = autoJumpCooldown g.

(** The player's bottom edge is on or above the ground line (the [y] axis
    points down). *)
Definition aboveGround (g : Game) : Prop :=
  Player.y (player g) + Player.height (player g) <= gameHeight g - 50.

(** The scroll-and-cull pass in the words of the specification: every
    entity moves left by the speed, and an entity is culled when its right
    edge is behind the camera offset. *)
Definition scrolledObstacle (speed : Q) (o : Obstacle.t) : Obstacle.t :=
  Obstacle.set_x o (Obstacle.x o - speed).

Definition obstacleBehind (camera : Q) (o : Obstacle.t) : bool :=
  Obstacle.x o + Obstacle.width o <? camera.

Definition scrolledPlatform (speed : Q) (p : Platform.t) : Platform.t :=
  Platform.set_x p (Platform.x p - speed).

Definition platformBehind (camera : Q) (p : Platform.t) : bool :=
  Platform.x p + Platform.width p <? camera.

(** The world [x] just past the right edge of the viewport. *)
Definition spawnX (g : Game) : Q := gameWidth g + cameraX g.

(** The states a session can be in: the constructor's, and what the
    host's events make of them. *)
Inductive reachable (random : nat -> Q) : Game -> Prop :=
| reachable_new : forall width height : Q, reachable random (newGame width height)
| reachable_handle :
    forall (g : Game) (e : Event),
      reachable random g -> reachable random (fst (handle random g e)).

(** Every spike of the list has the 40 by 40 footprint. *)
Definition spikes40 (obs : list Obstacle.t) : Prop :=
  Forall
    (fun o => Obstacle.type o = spike -> Obstacle.width o = 40 /\ Obstacle.height o = 40)
    obs.

(** The player's and a block's screen rectangles overlap horizontally. *)
Definition horizontalOverlap (g : Game) (o : Obstacle.t) : Prop :=
  Player.x (player g) < Obstacle.x o - cameraX g + Obstacle.width o
  /\ Obstacle.x o - cameraX g < Player.x (player g) + Player.width (player g).

(** The landing condition: horizontal overlap, the player's bottom edge
    between the block's top and its bottom plus 5, and a vertical velocity
    that is not negative. *)
Definition landingCondition (g : Game) (o : Obstacle.t) : Prop :=
  horizontalOverlap g o
  /\ Obstacle.y o <= Player.y (player g) + Player.height (player g)
  /\ Player.y (player g) + Player.height (player g)
     <= Obstacle.y o + Obstacle.height o + 5
  /\ 0 <= Player.velocityY (player g).

(** The two screen rectangles overlap. *)
Definition rectanglesOverlap (g : Game) (o : Obstacle.t) : Prop :=
  horizontalOverlap g o
  /\ Player.y (player g) < Obstacle.y o + Obstacle.height o
  /\ Obstacle.y o < Player.y (player g) + Player.height (player g).

(** ** Concrete sessions used by the examples *)

(** A host whose [Math.random()] always returns 0: every tick spawns a
    single spike at ground level. *)
Definition alwaysZero : nat -> Q := fun _ => 0.

(** A host whose [Math.random()] always returns 1/2: nothing spawns. *)
Definition alwaysHalf : nat -> Q := fun _ => 0.5.


(** A session in a 100 x 120 container, just started: the first spike
    spawns under the player. *)
Definition smallSession : Game := startGame (newGame 100 120).

(** A session in an 800 x 600 container, just started. *)
Definition freshSession : Game := startGame (newGame 800 600).

(** A playing session with a block under the falling player: the player's
    bottom edge (510) is inside the block (500 to 560), so that the two
    rectangles overlap while the landing test holds. *)
Definition blockSession : Game :=
  set_obstacles
    (set_player freshSession (Player.mk 100 470 40 40 2 false 0 "#00ff88"))
    [Obstacle.mk 120 500 40 60 block "#ffaa00"].

(** A session in a container 90 high: the player starts with its bottom
    edge on the ground line. *)
Definition groundedSession : Game := startGame (newGame 800 90).

(** The closed bounding box of a spike on screen and the player's
    rectangle have a point in common. *)
Definition boxesTouch (g : Game) (o : Obstacle.t) : Prop :=
  Player.x (player g) <= Obstacle.x o - cameraX g + Obstacle.width o
  /\ Obstacle.x o - cameraX g <= Player.x (player g) + Player.width (player g)
  /\ Player.y (player g) <= Obstacle.y o + Obstacle.height o
  /\ Obstacle.y o <= Player.y (player g) + Player.height (player g).

(** A spike whose apex is inside the player: the player of [freshSession]
    moved down to the ground, the spike at ground level under it. *)
Definition spikeSession : Game :=
  set_obstacles
    (set_player freshSession (Player.mk 100 510 40 40 0 true 0 "#00ff88"))
    [newSpike 110 520].

(** The point [p] is in the closed box from [lx] to [hx] and from [ly] to
    [hy]. *)
Definition inBox (lx hx ly hy : Q) (p : Point.t) : Prop :=
  lx <= Point.x p /\ Point.x p <= hx /\ ly <= Point.y p /\ Point.y p <= hy.

(** One step of a particle: it moves by its velocity and its life goes
    down by its decay. *)
Definition movedParticle (p : Particle.t) : Particle.t :=
  Particle.mk (Particle.x p + Particle.vx p) (Particle.y p + Particle.vy p)
    (Particle.vx p) (Particle.vy p) (Particle.life p - Particle.decay p)
    (Particle.decay p) (Particle.color p) (Particle.size p).

(** The particle has run out of life. *)
Definition particleDead (p : Particle.t) : bool := Particle.life p <=? 0.

(** The particle is still there after each of the first [n] calls of
    [updateParticles]. *)
Fixpoint survives (n : nat) (p : Particle.t) : bool :=
  match n with
  | O => true
  | S k => survives k p && negb (particleDead (Nat.iter (S k) movedParticle p))
  end.

(** A particle as [addParticles(x, y, color)] creates them. *)
Definition freshParticle (x y : Q) (color : string) (p : Particle.t) : Prop :=
  Particle.x p = x /\ Particle.y p = y
  /\ Particle.life p = 1.0 /\ Particle.decay p = 0.02
  /\ Particle.color p = color.

(** Every value of the host's random sequence is in the range of
    [Math.random()]. *)
Definition randomInRange (random : nat -> Q) : Prop :=
  forall n : nat, 0 <= random n /\ random n < 1.

(** A state with one particle as [addParticles] creates them. *)
Definition sparkSession : Game :=
  set_particles freshSession [Particle.mk 120 550 1 (-2) 1.0 0.02 "#00ff88" 3].

(** The surface whose top is at [top], spanning [width] from world [x],
    carries the player: they overlap horizontally on screen and the
    player's bottom edge is less than 5 away from the top. *)
Definition carries (g : Game) (x top width : Q) : Prop :=
  Player.x (player g) < x - cameraX g + width
  /\ x - cameraX g < Player.x (player g) + Player.width (player g)
  /\ Qabs (Player.y (player g) + Player.height (player g) - top) < 5.

(** The obstacle is a block. *)
Definition isBlock (o : Obstacle.t) : bool :=
  match Obstacle.type o with
  | block => true
  | spike => false
  end.

(** The landing condition on a platform: the same test as for a block. *)
Definition platformLandingCondition (g : Game) (p : Platform.t) : Prop :=
  Player.x (player g) < Platform.x p - cameraX g + Platform.width p
  /\ Platform.x p - cameraX g < Player.x (player g) + Player.width (player g)
  /\ Platform.y p <= Player.y (player g) + Player.height (player g)
  /\ Player.y (player g) + Player.height (player g)
     <= Platform.y p + Platform.height p + 5
  /\ 0 <= Player.velocityY (player g).

(** The tops of the surfaces of a state: its blocks, then its platforms. *)
Definition surfaceTops (g : Game) : list Q :=
  map Obstacle.y (filter isBlock (obstacles g)) ++ map Platform.y (platforms g).

(** How a state [g'] reached during the collision pass relates to the
    state [g] the pass started from: the player has not moved sideways or
    down, and its pose is untouched or at rest on one of the [tops]. *)
Definition lifted (tops : list Q) (g g' : Game) : Prop :=
  Player.x (player g') = Player.x (player g)
  /\ Player.width (player g') = Player.width (player g)
  /\ Player.height (player g') = Player.height (player g)
  /\ Player.y (player g') <= Player.y (player g)
  /\ ((Player.y (player g') = Player.y (player g)
       /\ Player.velocityY (player g') = Player.velocityY (player g))
      \/ (Player.velocityY (player g') = 0
          /\ exists top,
               In top tops /\ Player.y (player g') = top - Player.height (player g))).

(** A playing session with a platform under the falling player. *)
Definition platformSession : Game :=
  set_platforms
    (set_player freshSession (Player.mk 100 415 40 40 3 false 0 "#00ff88"))
    [Platform.mk 90 450 120 20 "#00aaff"].

(** The horizontal distance from the player to an obstacle, on screen. *)
Definition distanceAhead (g : Game) (o : Obstacle.t) : Q :=
  Obstacle.x o - cameraX g - Player.x (player g).

(** A grounded player at ground level with a spike 20 ahead, the cooldown
    long elapsed. *)
Definition dangerSession : Game :=
  set_obstacles
    (set_player freshSession (Player.mk 100 510 40 40 0 true 0 "#00ff88"))
    [newSpike 120 520].

(** [kept g g']: what the steps of a tick leave alone besides the fields of
    [steady], and a score that has grown by a multiple of 10. *)
Definition kept (g g' : Game) : Prop :=
  autoMode g' = autoMode g
  /\ touchStartTime g' = touchStartTime g
  /\ touchCooldown g' = touchCooldown g
  /\ Player.x (player g') = Player.x (player g)
  /\ Player.width (player g') = Player.width (player g)
  /\ Player.height (player g') = Player.height (player g)
  /\ exists k : nat, score g' = (score g + 10 * Z.of_nat k)%Z.

(** The footprints of the entities of a state. *)
Definition footprints (g : Game) : Prop :=
  Forall
    (fun o =>
       Obstacle.width o = 40
       /\ Obstacle.height o = match Obstacle.type o with spike => 40 | block => 60 end)
    (obstacles g)
  /\ Forall
       (fun p =>
          Platform.height p = 20 /\ (Platform.width p = 80 \/ Platform.width p = 120))
       (platforms g).

(** The constants of a session. *)
Definition constants (g : Game) : Prop :=
  Player.x (player g) = 100
  /\ Player.width (player g) = 40
  /\ Player.height (player g) = 40
  /\ gravity g = 0.8
  /\ jumpForce g = -15
  /\ autoJumpCooldown g = 800%Z
  /\ touchCooldown g = 200%Z.

(** The counters of a session are consistent. *)
Definition counters (g : Game) : Prop :=
  (exists k : nat, score g = (10 * Z.of_nat k)%Z)
  /\ distance g = Qfloor (cameraX g / 10)
  /\ 5 <= gameSpeed g
  /\ 0 <= cameraX g.

(** The height lost after [n] ticks of free flight from vertical velocity
    [vy] under gravity [gr]: the velocity grows before the position moves, so
    tick [k] moves the body by [vy + k * gr]. *)
Definition flightDrop (vy gr : Q) (n : nat) : Q :=
  inject_Z (Z.of_nat n) * vy
  + gr * (inject_Z (Z.of_nat n) * (inject_Z (Z.of_nat n) + 1)) * (1 # 2).

(** The player of [freshSession] just after a jump from the ground. *)
Definition jumpingSession : Game :=
  set_player freshSession (Player.mk 100 510 40 40 (-15) false 0 "#00ff88").

(** * Properties *)

(** ** Reflection of the boolean comparisons *)

Lemma Qlt_bool_iff (a b : Q) : (a <? b) = true <-> a < b.
Proof.
  unfold Qlt_bool. rewrite negb_true_iff.
  split; intro H.
  - apply Qnot_le_lt. intro Hle. apply Qle_bool_iff in Hle. congruence.
  - destruct (Qle_bool b a) eqn:E; [|reflexivity].
    apply Qle_bool_iff in E. exfalso. apply (Qlt_not_le _ _ H E).
Qed.

Lemma Qlt_bool_false_iff (a b : Q) : (a <? b) = false <-> b <= a.
Proof.
  unfold Qlt_bool. rewrite negb_false_iff. apply Qle_bool_iff.
Qed.

Lemma Qle_bool_false_iff (a b : Q) : (a <=? b) = false <-> b < a.
Proof.
  rewrite <- Qlt_bool_iff. unfold Qlt_bool.
  destruct (Qle_bool a b); simpl; split; congruence.
Qed.

Lemma Qeq_bool_false_iff (a b : Q) : (a =? b) = false <-> ~ a == b.
Proof.
  rewrite <- Qeq_bool_iff. destruct (Qeq_bool a b); split; congruence.
Qed.

(** Turns the boolean tests of the hypotheses and of the goal into
    propositions on [Q]. *)
Ltac qprop :=
  repeat match goal with
    | H : _ && _ = true |- _ => apply andb_true_iff in H; destruct H
    | H : (_ <? _) = true |- _ => apply Qlt_bool_iff in H
    | H : (_ <=? _) = true |- _ => apply Qle_bool_iff in H
    | H : (_ =? _) = true |- _ => apply Qeq_bool_iff in H
    | H : (_ <? _) = false |- _ => apply Qlt_bool_false_iff in H
    | H : (_ <=? _) = false |- _ => apply Qle_bool_false_iff in H
    | H : (_ =? _) = false |- _ => apply Qeq_bool_false_iff in H
    end.

(** ** Geometry kernel *)

(** C6.  [linesIntersect] answers false whenever the denominator is zero
    (parallel segments, also when they are collinear and overlap, as the
    two segments of the x axis in the third part show), and answers true
    exactly when the denominator is not zero and both parameters [ua] and
    [ub] lie in the closed interval from 0 to 1. *)
Theorem linesIntersect_spec :
  forall p1 p2 p3 p4 : Point.t,
    (linesIntersect_denominator p1 p2 p3 p4 == 0 ->
     linesIntersect p1 p2 p3 p4 = false)
    /\ (linesIntersect p1 p2 p3 p4 = true <->
        ~ linesIntersect_denominator p1 p2 p3 p4 == 0
        /\ 0 <= linesIntersect_ua p1 p2 p3 p4 <= 1
        /\ 0 <= linesIntersect_ub p1 p2 p3 p4 <= 1)
    /\ linesIntersect (Point.mk 0 0) (Point.mk 2 0) (Point.mk 1 0) (Point.mk 3 0)
       = false.
Proof.
  intros p1 p2 p3 p4. unfold linesIntersect.
  split; [|split].
  - intro Hz. apply Qeq_bool_iff in Hz. rewrite Hz. reflexivity.
  - destruct (linesIntersect_denominator p1 p2 p3 p4 =? 0) eqn:Hden.
    + split; [discriminate|].
      intros [Hnz _]. apply Qeq_bool_iff in Hden. contradiction.
    + apply Qeq_bool_false_iff in Hden.
      rewrite !andb_true_iff, !Qle_bool_iff. tauto.
  - reflexivity.
Qed.

(** The test run: two crossing diagonals meet, two parallel lines do not,
    and neither do two segments whose lines cross outside of them. *)
Example linesIntersect_crossing :
  linesIntersect (Point.mk 0 0) (Point.mk 2 2) (Point.mk 0 2) (Point.mk 2 0) = true
  /\ linesIntersect (Point.mk 0 0) (Point.mk 2 0) (Point.mk 0 1) (Point.mk 2 1) = false
  /\ linesIntersect (Point.mk 0 0) (Point.mk 1 1) (Point.mk 2 0) (Point.mk 3 (-5)) = false.
Proof. repeat split; reflexivity. Qed.

(** ** What each step leaves alone *)

Section Frames.

Variable random : nat -> Q.

Lemma steady_refl (g : Game) : steady g g.
Proof. unfold steady. repeat split. Qed.

Lemma steady_trans (g1 g2 g3 : Game) : steady g1 g2 -> steady g2 g3 -> steady g1 g3.
Proof.
  unfold steady. intros H1 H2.
  decompose [and] H1. decompose [and] H2.
  repeat split; congruence.
Qed.

Lemma addParticles_loop_shape (n : nat) :
  forall g x y color,
    exists ps k,
      addParticles_loop random n g x y color = set_randomCalls (set_particles g ps) k.
Proof.
  induction n as [|n IH]; intros g x y color.
  - exists (particles g), (randomCalls g). destruct g. reflexivity.
  - cbn [addParticles_loop nextRandom].
    match goal with
    | |- context [addParticles_loop random n ?g1 x y color] =>
        destruct (IH g1 x y color) as (ps & k & E); rewrite E
    end.
    exists ps, k. reflexivity.
Qed.

Lemma addParticles_shape (g : Game) (x y : Q) (color : string) :
  exists ps k, addParticles random g x y color = set_randomCalls (set_particles g ps) k.
Proof. apply addParticles_loop_shape. Qed.

Lemma land_shape (g : Game) (surface_y : Q) (color : string) :
  exists ps k,
    land random g surface_y color
    = repose g (gameState g) (surface_y - Player.height (player g)) 0
        (Player.isGrounded (player g)) ps k.
Proof.
  unfold land.
  match goal with
  | |- context [addParticles random ?g1 ?x ?y color] =>
      destruct (addParticles_shape g1 x y color) as (ps & k & E); rewrite E
  end.
  exists ps, k. reflexivity.
Qed.

Lemma repose_self (g : Game) :
  g = repose g (gameState g) (Player.y (player g)) (Player.velocityY (player g))
        (Player.isGrounded (player g)) (particles g) (randomCalls g).
Proof. destruct g as [? ? ? ? ? ? ? ? ? ? [] ? ? ? ? ? ? ? ? ?]. reflexivity. Qed.

Lemma checkObstacle_shape (g : Game) (o : Obstacle.t) :
  exists st y vy ps k,
    fst (checkObstacle random g o) = repose g st y vy (Player.isGrounded (player g)) ps k.
Proof.
  unfold checkObstacle.
  destruct (Obstacle.type o).
  - destruct (checkSpikeCollision g o); cbn [fst].
    + exists gameOver, (Player.y (player g)), (Player.velocityY (player g)),
        (particles g), (randomCalls g).
      rewrite (repose_self g) at 1. reflexivity.
    + do 5 eexists. apply repose_self.
  - destruct (blockLanding g o); cbn [fst].
    + destruct (land_shape g (Obstacle.y o) "#ffaa00") as (ps & k & E).
      rewrite E. do 5 eexists. reflexivity.
    + destruct (blockOverlap g o); cbn [fst].
      * exists gameOver, (Player.y (player g)), (Player.velocityY (player g)),
          (particles g), (randomCalls g).
        rewrite (repose_self g) at 1. reflexivity.
      * do 5 eexists. apply repose_self.
Qed.

Lemma checkObstacles_shape (obs : list Obstacle.t) :
  forall g,
    exists st y vy ps k,
      fst (checkObstacles random g obs)
      = repose g st y vy (Player.isGrounded (player g)) ps k.
Proof.
  induction obs as [|o rest IH]; intro g; cbn [checkObstacles].
  - do 5 eexists. apply repose_self.
  - destruct (checkObstacle_shape g o) as (st & y & vy & ps & k & E).
    destruct (checkObstacle random g o) as [g' stop]. cbn [fst] in E.
    destruct stop; cbn [fst].
    + rewrite E. do 5 eexists. reflexivity.
    + destruct (IH g') as (st' & y' & vy' & ps' & k' & E').
      rewrite E'. rewrite E. exists st', y', vy', ps', k'. reflexivity.
Qed.

Lemma checkPlatforms_shape (pls : list Platform.t) :
  forall g,
    exists y vy ps k,
      checkPlatforms random g pls
      = repose g (gameState g) y vy (Player.isGrounded (player g)) ps k.
Proof.
  induction pls as [|pl rest IH]; intro g; cbn [checkPlatforms].
  - do 4 eexists. apply repose_self.
  - destruct (IH (checkPlatform random g pl)) as (y' & vy' & ps' & k' & E').
    rewrite E'. unfold checkPlatform.
    destruct (platformLanding g pl).
    + destruct (land_shape g (Platform.y pl) "#00aaff") as (ps & k & E).
      rewrite E. do 4 eexists. reflexivity.
    + do 4 eexists. reflexivity.
Qed.

Lemma checkCollisions_shape (g : Game) :
  exists st y vy ps k,
    checkCollisions random g = repose g st y vy (Player.isGrounded (player g)) ps k.
Proof.
  unfold checkCollisions.
  destruct (checkObstacles_shape (obstacles g) g) as (st & y & vy & ps & k & E).
  destruct (checkObstacles random g (obstacles g)) as [g' stop]. cbn [fst] in E.
  destruct stop.
  - rewrite E. do 5 eexists. reflexivity.
  - destruct (checkPlatforms_shape (platforms g') g') as (y' & vy' & ps' & k' & E').
    rewrite E', E. exists st, y', vy', ps', k'. reflexivity.
Qed.

Lemma jump_shape (g : Game) :
  exists vy gr ps k,
    jump random g = repose g (gameState g) (Player.y (player g)) vy gr ps k.
Proof.
  unfold jump. destruct (Player.isGrounded (player g)).
  - match goal with
    | |- context [addParticles random ?g1 ?x ?y ?c] =>
        destruct (addParticles_shape g1 x y c) as (ps & k & E); rewrite E
    end.
    do 4 eexists. reflexivity.
  - do 4 eexists. apply repose_self.
Qed.

End Frames.

Section Steps.

Variable random : nat -> Q.

Lemma repose_steady (g : Game) st y vy gr ps k : steady g (repose g st y vy gr ps k).
Proof. unfold steady. repeat split. Qed.

Lemma updatePlayer_steady (g : Game) : steady g (updatePlayer g).
Proof. unfold steady. repeat split. Qed.

(** Case analysis on every test of [generateObstacles]. *)
Ltac spawn_cases :=
  unfold generateObstacles, nextRandom, pushObstacle, pushPlatform;
  repeat match goal with
    | |- context [if ?c then _ else _] => destruct c
    | |- context [match arrayGet ?a ?i with _ => _ end] => destruct (arrayGet a i)
    | |- context [match ?f with f_spike => _ | _ => _ end] => destruct f
    end.

Lemma generateObstacles_steady (g : Game) : steady g (generateObstacles random g).
Proof. spawn_cases; unfold steady; repeat split. Qed.

Lemma generateObstacles_player (g : Game) :
  player (generateObstacles random g) = player g.
Proof. spawn_cases; reflexivity. Qed.

Lemma generateObstacles_gameState (g : Game) :
  gameState (generateObstacles random g) = gameState g.
Proof. spawn_cases; reflexivity. Qed.

Lemma updateObstacles_steady (g : Game) : steady g (updateObstacles g).
Proof.
  unfold updateObstacles.
  destruct (updateObstacles_loop _ _ _ _ _) as [obs sc].
  unfold steady. repeat split.
Qed.

Lemma updateObstacles_player (g : Game) : player (updateObstacles g) = player g.
Proof.
  unfold updateObstacles.
  destruct (updateObstacles_loop _ _ _ _ _) as [obs sc]. reflexivity.
Qed.

Lemma updateParticles_steady (g : Game) : steady g (updateParticles g).
Proof. unfold steady. repeat split. Qed.

Lemma checkCollisions_steady (g : Game) : steady g (checkCollisions random g).
Proof.
  destruct (checkCollisions_shape random g) as (st & y & vy & ps & k & E).
  rewrite E. apply repose_steady.
Qed.

Lemma tickUntilCollisions_steady (g : Game) : steady g (tickUntilCollisions random g).
Proof.
  unfold tickUntilCollisions.
  eapply steady_trans; [|apply checkCollisions_steady].
  eapply steady_trans; [|apply updateParticles_steady].
  eapply steady_trans; [|apply updateObstacles_steady].
  eapply steady_trans; [|apply generateObstacles_steady].
  eapply steady_trans; [|apply updatePlayer_steady].
  unfold steady. repeat split.
Qed.

Lemma jump_steady (g : Game) : steady g (jump random g).
Proof.
  destruct (jump_shape random g) as (vy & gr & ps & k & E).
  rewrite E. apply repose_steady.
Qed.

Lemma jump_gameState (g : Game) : gameState (jump random g) = gameState g.
Proof.
  destruct (jump_shape random g) as (vy & gr & ps & k & E).
  rewrite E. reflexivity.
Qed.

(** The two outcomes of [autoJump]: nothing, or one [jump()] stamped with
    the current time, which needs a grounded player and an elapsed
    cooldown. *)
Lemma autoJump_cases (g : Game) (now : Z) :
  autoJump random g now = (g, false)
  \/ (autoJump random g now = (set_lastAutoJumpTime (jump random g) now, true)
      /\ Player.isGrounded (player g) = true
      /\ (autoJumpCooldown g <= now - lastAutoJumpTime g)%Z).
Proof.
  unfold autoJump.
  destruct (Player.isGrounded (player g)); cbn [negb]; [|left; reflexivity].
  destruct (now - lastAutoJumpTime g <? autoJumpCooldown g)%Z eqn:Hcool;
    [left; reflexivity|].
  apply Z.ltb_ge in Hcool.
  repeat match goal with
    | |- context [if ?c then _ else _] => destruct c
    end;
    (left; reflexivity) || (right; repeat split; assumption).
Qed.

(** The fields the autoplay controller cannot change. *)
Lemma autoJump_keeps (g : Game) (now : Z) :
  let g' := fst (autoJump random g now) in
  gameState g' = gameState g
  /\ cameraX g' = cameraX g
  /\ distance g' = distance g
  /\ gameSpeed g' = gameSpeed g
  /\ gameHeight g' = gameHeight g
  /\ autoJumpCooldown g' = autoJumpCooldown g
  /\ Player.y (player g') = Player.y (player g)
  /\ Player.height (player g') = Player.height (player g).
Proof.
  destruct (autoJump_cases g now) as [E | [E _]]; rewrite E; cbn [fst].
  - repeat split.
  - destruct (jump_shape random g) as (vy & gr & ps & k & Ej).
    rewrite Ej. repeat split.
Qed.

(** What a tick of a playing session does to the camera offset, the
    distance, the speed and the phase, from the state its collision pass
    has left. *)
Lemma tick_camera (g : Game) (now : Z) :
  gameState g = playing ->
  let c := tickUntilCollisions random g in
  let g' := tick random g now in
  cameraX g' = cameraX c + gameSpeed c
  /\ distance g' = Qfloor ((cameraX c + gameSpeed c) / 10)
  /\ gameSpeed g' = gameSpeed c + 0.001
  /\ gameState g' = gameState c.
Proof.
  intros Hplay c g'. subst g'. unfold tick, update. rewrite Hplay. fold c.
  destruct (autoMode (updateCamera c)).
  - destruct (autoJump_keeps (updateCamera c) now) as (Hs & Hc & Hd & Hg & _).
    rewrite Hs, Hc, Hd, Hg. repeat split.
  - repeat split.
Qed.

Lemma tick_speed_nondecreasing (g : Game) (now : Z) :
  gameSpeed g <= gameSpeed (tick random g now).
Proof.
  destruct (gameState g) eqn:Hst;
    try (unfold tick, update; rewrite Hst; cbn [fst]; apply Qle_refl).
  destruct (tick_camera g now Hst) as (_ & _ & Hg & _). rewrite Hg.
  destruct (tickUntilCollisions_steady g) as (_ & _ & _ & Hs & _). rewrite Hs.
  lra.
Qed.

Lemma handle_speed_nondecreasing (g : Game) (e : Event) :
  e <> ClickRestart -> gameSpeed g <= gameSpeed (fst (handle random g e)).
Proof.
  intro Hne. destruct e as [code|code| | |touch|w h|now]; cbn [handle].
  - destruct (String.eqb code "Space"); [|apply Qle_refl].
    cbn [gameState set_keys]. destruct (gameState g); cbn [fst]; try apply Qle_refl.
    match goal with
    | |- context [jump random ?g1] =>
        destruct (jump_steady g1) as (_ & _ & _ & Hs & _); rewrite Hs
    end.
    apply Qle_refl.
  - apply Qle_refl.
  - apply Qle_refl.
  - congruence.
  - destruct (touch - touchStartTime g <? touchCooldown g)%Z; [apply Qle_refl|].
    cbn [gameState set_touchStartTime].
    destruct (gameState g); cbn [fst]; try apply Qle_refl.
    match goal with
    | |- context [jump random ?g1] =>
        destruct (jump_steady g1) as (_ & _ & _ & Hs & _); rewrite Hs
    end.
    apply Qle_refl.
  - cbn [fst]. unfold resizeCanvas. cbn [gameState set_gameHeight set_gameWidth].
    destruct (gameState g); apply Qle_refl.
  - pose proof (tick_speed_nondecreasing g now) as H. unfold tick in H.
    destruct (update random g now) as [g' jumped]. exact H.
Qed.

Lemma run_speed_nondecreasing (es : list Event) :
  forall g, ~ In ClickRestart es -> gameSpeed g <= gameSpeed (fst (run random g es)).
Proof.
  induction es as [|e rest IH]; intros g Hno; cbn [run].
  - apply Qle_refl.
  - pose proof (handle_speed_nondecreasing g e) as He.
    destruct (handle random g e) as [g1 j]. cbn [fst] in He.
    specialize (IH g1).
    destruct (run random g1 rest) as [g2 js]. cbn [fst] in *.
    apply Qle_trans with (gameSpeed g1).
    + apply He. intro Heq. apply Hno. left. exact Heq.
    + apply IH. intro Hin. apply Hno. right. exact Hin.
Qed.

End Steps.

(** ** Speed *)

(** C8.  Take two ticks of one session, with any host events between them
    except a restart: the speed after the later tick is at least the speed
    after the earlier one. *)
Theorem speed_monotone_between_ticks :
  forall (random : nat -> Q) (g : Game) (now1 now2 : Z) (between : list Event),
    ~ In ClickRestart between ->
    let g1 := tick random g now1 in
    let g2 := tick random (fst (run random g1 between)) now2 in
    gameSpeed g1 <= gameSpeed g2.
Proof.
  intros random g now1 now2 between Hno g1 g2. subst g2.
  apply Qle_trans with (gameSpeed (fst (run random g1 between))).
  - apply run_speed_nondecreasing. exact Hno.
  - apply tick_speed_nondecreasing.
Qed.

Lemma speed_monotone_between_ticks_witness :
  ~ In ClickRestart [KeyDown "Space"]
  /\ gameSpeed (tick alwaysHalf freshSession 0)
     <= gameSpeed
          (tick alwaysHalf
             (fst (run alwaysHalf (tick alwaysHalf freshSession 0) [KeyDown "Space"])) 16).
Proof.
  assert (H : ~ In ClickRestart [KeyDown "Space"]).
  { intros [H|[]]. discriminate H. }
  split; [exact H|].
  exact (speed_monotone_between_ticks alwaysHalf freshSession 0 16 [KeyDown "Space"] H).
Defined.

(** ** Game over within a tick *)

(** C2, as the code has it.  On a tick whose collision pass ends the run,
    [update] still runs the camera step: the camera offset grows by the
    speed, the distance is recomputed from it, the speed grows by 0.001;
    the phase stays [gameOver], and every later tick changes nothing. *)
Theorem gameOver_tick_still_runs_camera_step :
  forall (random : nat -> Q) (g : Game) (now : Z),
    gameState g = playing ->
    gameState (tickUntilCollisions random g) = gameOver ->
    let c := tickUntilCollisions random g in
    let g' := tick random g now in
    cameraX c = cameraX g
    /\ gameSpeed c = gameSpeed g
    /\ cameraX g' = cameraX c + gameSpeed c
    /\ distance g' = Qfloor ((cameraX c + gameSpeed c) / 10)
    /\ gameSpeed g' = gameSpeed c + 0.001
    /\ gameState g' = gameOver
    /\ (forall later : Z, update random g' later = (g', false)).
Proof.
  intros random g now Hplay Hover c g'.
  destruct (tick_camera random g now Hplay) as (Hc & Hd & Hs & Hst).
  fold c in Hc, Hd, Hs, Hst. fold g' in Hc, Hd, Hs, Hst.
  destruct (tickUntilCollisions_steady random g) as (_ & _ & _ & Hs0 & _ & _ & Hc0 & _).
  fold c in Hs0, Hc0.
  assert (Hg' : gameState g' = gameOver) by (rewrite Hst; exact Hover).
  repeat split; try assumption.
  intro later. unfold update. rewrite Hg'. reflexivity.
Qed.

Lemma gameOver_tick_still_runs_camera_step_witness :
  gameState smallSession = playing
  /\ gameState (tickUntilCollisions alwaysZero smallSession) = gameOver
  /\ cameraX (tick alwaysZero smallSession 0)
     = cameraX (tickUntilCollisions alwaysZero smallSession)
       + gameSpeed (tickUntilCollisions alwaysZero smallSession).
Proof.
  assert (H1 : gameState smallSession = playing) by reflexivity.
  assert (H2 : gameState (tickUntilCollisions alwaysZero smallSession) = gameOver)
    by (vm_compute; reflexivity).
  split; [exact H1|]. split; [exact H2|].
  exact (proj1 (proj2 (proj2
    (gameOver_tick_still_runs_camera_step alwaysZero smallSession 0 H1 H2)))).
Defined.

(** C2, as the claim states it, fails.  In a 100 x 120 container with
    [Math.random()] returning 0, the first tick spawns a spike under the
    player and the collision pass ends the run with the camera offset at 0
    and the speed at 5; at the end of that tick the camera offset is 5 and
    the speed 5.001. *)
Lemma gameOver_tick_skips_camera_counterexample :
  let c := tickUntilCollisions alwaysZero smallSession in
  let g' := tick alwaysZero smallSession 0 in
  gameState smallSession = playing
  /\ gameState c = gameOver
  /\ cameraX c == 0 /\ cameraX g' == 5
  /\ gameSpeed c == 5 /\ gameSpeed g' == 5.001
  /\ ~ (cameraX g' == cameraX c /\ distance g' = distance c
        /\ gameSpeed g' == gameSpeed c).
Proof.
  vm_compute. repeat split; try discriminate.
  intros (H & _). discriminate H.
Qed.

(** ** Ground line *)

Section Ground.

Variable random : nat -> Q.

Lemma aboveGround_same (g g' : Game) :
  Player.y (player g') = Player.y (player g) ->
  Player.height (player g') = Player.height (player g) ->
  gameHeight g' = gameHeight g ->
  aboveGround g -> aboveGround g'.
Proof. unfold aboveGround. intros -> -> ->. trivial. Qed.

(** The ground clamp of [updatePlayer]. *)
Lemma updatePlayer_clamp (g : Game) :
  let p := player g in
  let p' := player (updatePlayer g) in
  Player.height p' = Player.height p
  /\ (Player.y p + (Player.velocityY p + gravity g) + Player.height p > gameHeight g - 50 ->
      Player.y p' = gameHeight g - 50 - Player.height p /\ Player.velocityY p' = 0)
  /\ (Player.y p + (Player.velocityY p + gravity g) + Player.height p <= gameHeight g - 50 ->
      Player.y p' = Player.y p + (Player.velocityY p + gravity g)
      /\ Player.velocityY p' = Player.velocityY p + gravity g).
Proof.
  unfold updatePlayer. cbn.
  destruct (gameHeight g - 50
            <? Player.y (player g) + (Player.velocityY (player g) + gravity g)
               + Player.height (player g)) eqn:Htest; cbn; qprop.
  - split; [reflexivity|split].
    + intros _. split; reflexivity.
    + intro Hle. exfalso. lra.
  - split; [reflexivity|split].
    + intro Hgt. exfalso. lra.
    + intros _. split; reflexivity.
Qed.

Lemma updatePlayer_aboveGround (g : Game) : aboveGround (updatePlayer g).
Proof.
  destruct (updatePlayer_clamp g) as (Hh & Hclamp & Hfree).
  unfold aboveGround.
  replace (gameHeight (updatePlayer g)) with (gameHeight g) by reflexivity.
  rewrite Hh.
  destruct (Qlt_le_dec (gameHeight g - 50)
              (Player.y (player g) + (Player.velocityY (player g) + gravity g)
               + Player.height (player g))) as [Hgt | Hle].
  - destruct (Hclamp Hgt) as [Hy _]. rewrite Hy. lra.
  - destruct (Hfree Hle) as [Hy _]. rewrite Hy. lra.
Qed.

(** A landing puts the bottom edge on the surface, which the landing test
    found on or above the bottom edge. *)
Lemma land_aboveGround (g : Game) (surface_y : Q) (color : string) :
  surface_y <= Player.y (player g) + Player.height (player g) ->
  aboveGround g -> aboveGround (land random g surface_y color).
Proof.
  intros Hsurf Hg.
  destruct (land_shape random g surface_y color) as (ps & k & E). rewrite E.
  unfold aboveGround in *. cbn. lra.
Qed.

Lemma checkObstacle_aboveGround (g : Game) (o : Obstacle.t) :
  aboveGround g -> aboveGround (fst (checkObstacle random g o)).
Proof.
  intro Hg. unfold checkObstacle.
  destruct (Obstacle.type o).
  - destruct (checkSpikeCollision g o); exact Hg.
  - destruct (blockLanding g o) eqn:Hland; cbn [fst].
    + unfold blockLanding in Hland. qprop.
      apply land_aboveGround; assumption.
    + destruct (blockOverlap g o); exact Hg.
Qed.

Lemma checkObstacles_aboveGround (obs : list Obstacle.t) :
  forall g, aboveGround g -> aboveGround (fst (checkObstacles random g obs)).
Proof.
  induction obs as [|o rest IH]; intros g Hg; cbn [checkObstacles].
  - exact Hg.
  - pose proof (checkObstacle_aboveGround g o Hg) as Ho.
    destruct (checkObstacle random g o) as [g' stop]. cbn [fst] in Ho.
    destruct stop; [exact Ho|]. apply IH. exact Ho.
Qed.

Lemma checkPlatforms_aboveGround (pls : list Platform.t) :
  forall g, aboveGround g -> aboveGround (checkPlatforms random g pls).
Proof.
  induction pls as [|pl rest IH]; intros g Hg; cbn [checkPlatforms].
  - exact Hg.
  - apply IH. unfold checkPlatform.
    destruct (platformLanding g pl) eqn:Hland; [|exact Hg].
    unfold platformLanding in Hland. qprop.
    apply land_aboveGround; assumption.
Qed.

Lemma checkCollisions_aboveGround (g : Game) :
  aboveGround g -> aboveGround (checkCollisions random g).
Proof.
  intro Hg. unfold checkCollisions.
  pose proof (checkObstacles_aboveGround (obstacles g) g Hg) as Ho.
  destruct (checkObstacles random g (obstacles g)) as [g' stop]. cbn [fst] in Ho.
  destruct stop; [exact Ho|]. apply checkPlatforms_aboveGround. exact Ho.
Qed.

Lemma tickUntilCollisions_aboveGround (g : Game) :
  aboveGround (tickUntilCollisions random g).
Proof.
  unfold tickUntilCollisions.
  apply checkCollisions_aboveGround.
  set (g1 := updatePlayer (set_autoMode g (keyPressed (keys g) "KeyA"))).
  assert (H1 : aboveGround g1) by apply updatePlayer_aboveGround.
  set (g2 := generateObstacles random g1).
  assert (H2 : aboveGround g2).
  { apply (aboveGround_same g1); [| | |exact H1];
      unfold g2; try rewrite generateObstacles_player; try reflexivity.
    apply (generateObstacles_steady random g1). }
  set (g3 := updateObstacles g2).
  assert (H3 : aboveGround g3).
  { apply (aboveGround_same g2); [| | |exact H2];
      unfold g3; try rewrite updateObstacles_player; try reflexivity.
    apply (updateObstacles_steady g2). }
  exact H3.
Qed.

Lemma tick_aboveGround (g : Game) (now : Z) :
  gameState g = playing -> aboveGround (tick random g now).
Proof.
  intro Hplay. unfold tick, update. rewrite Hplay.
  pose proof (tickUntilCollisions_aboveGround g) as Hc.
  set (c := tickUntilCollisions random g) in *.
  assert (Hcam : aboveGround (updateCamera c)) by exact Hc.
  destruct (autoMode (updateCamera c)); [|exact Hcam].
  destruct (autoJump_keeps random (updateCamera c) now)
    as (_ & _ & _ & _ & Hh & _ & Hy & Hph).
  apply (aboveGround_same (updateCamera c)); assumption.
Qed.

End Ground.

(** C4.  On every tick of a playing session: when gravity would carry the
    bottom edge below the ground line, [updatePlayer] puts it exactly on
    the line and zeroes the vertical velocity; the bottom edge is on or
    above the line after the physics step, after the collision pass and at
    the end of the tick. *)
Theorem player_never_below_ground :
  forall (random : nat -> Q) (g : Game) (now : Z),
    gameState g = playing ->
    let p := player g in
    let physics := updatePlayer (set_autoMode g (keyPressed (keys g) "KeyA")) in
    let g' := tick random g now in
    (Player.y p + (Player.velocityY p + gravity g) + Player.height p > gameHeight g - 50 ->
     Player.y (player physics) + Player.height (player physics) == gameHeight g - 50
     /\ Player.velocityY (player physics) = 0)
    /\ Player.y (player physics) + Player.height (player physics) <= gameHeight g - 50
    /\ aboveGround (tickUntilCollisions random g)
    /\ gameHeight g' = gameHeight g
    /\ Player.y (player g') + Player.height (player g') <= gameHeight g' - 50.
Proof.
  intros random g now Hplay p physics g'.
  split; [|split; [|split; [|split]]].
  - intro Hbelow.
    destruct (updatePlayer_clamp (set_autoMode g (keyPressed (keys g) "KeyA")))
      as (Hh & Hclamp & _).
    destruct (Hclamp Hbelow) as [Hy Hv].
    fold physics in Hh, Hy, Hv. rewrite Hy, Hh. cbn. split; [lra|exact Hv].
  - exact (updatePlayer_aboveGround (set_autoMode g (keyPressed (keys g) "KeyA"))).
  - apply tickUntilCollisions_aboveGround.
  - unfold g', tick, update. rewrite Hplay.
    set (c := tickUntilCollisions random g).
    assert (Hc : gameHeight c = gameHeight g)
      by apply (tickUntilCollisions_steady random g).
    destruct (autoMode (updateCamera c)); [|exact Hc].
    destruct (autoJump_keeps random (updateCamera c) now) as (_ & _ & _ & _ & Hh & _).
    rewrite Hh. exact Hc.
  - exact (tick_aboveGround random g now Hplay).
Qed.

Lemma player_never_below_ground_witness :
  gameState groundedSession = playing
  /\ Player.y (player (tick alwaysHalf groundedSession 0))
     + Player.height (player (tick alwaysHalf groundedSession 0))
     <= gameHeight (tick alwaysHalf groundedSession 0) - 50.
Proof.
  assert (H : gameState groundedSession = playing) by reflexivity.
  split; [exact H|].
  exact (proj2 (proj2 (proj2 (proj2
    (player_never_below_ground alwaysHalf groundedSession 0 H))))).
Defined.

(** The clamp at work: in [groundedSession] gravity would move the bottom
    edge to 40.8, below the ground line at 40; the tick leaves it at 40 with
    no vertical velocity. *)
Example ground_clamp_run :
  let g' := tick alwaysHalf groundedSession 0 in
  Player.y (player g') + Player.height (player g') == 40
  /\ Player.velocityY (player g') == 0
  /\ Player.isGrounded (player g') = true.
Proof. vm_compute. repeat split. Qed.

(** ** Blocks: landing before lethal contact *)

Section Blocks.

Variable random : nat -> Q.

Lemma blockLanding_iff (g : Game) (o : Obstacle.t) :
  blockLanding g o = true <-> landingCondition g o.
Proof.
  unfold blockLanding, landingCondition, horizontalOverlap.
  rewrite !andb_true_iff, !Qlt_bool_iff, !Qle_bool_iff. tauto.
Qed.

Lemma blockOverlap_iff (g : Game) (o : Obstacle.t) :
  blockOverlap g o = true <-> rectanglesOverlap g o.
Proof.
  unfold blockOverlap, rectanglesOverlap, horizontalOverlap.
  rewrite !andb_true_iff, !Qlt_bool_iff. tauto.
Qed.

(** When the loop body ends the run on a block. *)
Lemma checkObstacle_block_lethal (g : Game) (o : Obstacle.t) :
  Obstacle.type o = block ->
  (snd (checkObstacle random g o) = true
   <-> rectanglesOverlap g o /\ ~ landingCondition g o).
Proof.
  intro Hblock. unfold checkObstacle. rewrite Hblock.
  rewrite <- blockLanding_iff, <- blockOverlap_iff.
  destruct (blockLanding g o); [|destruct (blockOverlap g o)]; cbn [snd].
  - split; [discriminate|]. intros [_ Hn]. exfalso. apply Hn. reflexivity.
  - split; [intros _; split; [reflexivity|discriminate] | reflexivity].
  - split; [discriminate|]. intros [Ho _]. discriminate Ho.
Qed.

(** When the obstacle loop ends the run, it does so on one obstacle, in the
    state the obstacles before it have left. *)
Lemma checkObstacles_lethal (obs : list Obstacle.t) :
  forall g : Game,
    snd (checkObstacles random g obs) = true ->
    exists before o after g0,
      obs = before ++ o :: after
      /\ checkObstacles random g before = (g0, false)
      /\ snd (checkObstacle random g0 o) = true.
Proof.
  induction obs as [|o rest IH]; intros g Hstop; cbn [checkObstacles] in Hstop.
  - discriminate Hstop.
  - destruct (checkObstacle random g o) as [g1 stop] eqn:E.
    destruct stop.
    + exists [], o, rest, g. rewrite E. repeat split.
    + destruct (IH g1 Hstop) as (before & o' & after & g0 & Hobs & Hbefore & Hleth).
      exists (o :: before), o', after, g0. rewrite Hobs.
      cbn [checkObstacles app]. rewrite E. repeat split; assumption.
Qed.

End Blocks.

(** C1.  For a block [o] met by the obstacle loop in a state [g]: if the
    landing condition holds, the loop body does not end the run, puts the
    player's bottom edge exactly on the block's top and zeroes the vertical
    velocity, whether or not the rectangles overlap; the body ends the run
    exactly when the rectangles overlap and the landing condition fails.
    And when the whole obstacle loop ends the run on a block, the
    rectangles overlap and the landing condition fails in the state the
    loop has reached at that block. *)
Theorem block_landing_precedes_lethal :
  forall (random : nat -> Q) (g : Game) (o : Obstacle.t),
    Obstacle.type o = block ->
    let g' := fst (checkObstacle random g o) in
    let lethal := snd (checkObstacle random g o) in
    (landingCondition g o ->
     lethal = false
     /\ gameState g' = gameState g
     /\ Player.y (player g') + Player.height (player g') == Obstacle.y o
     /\ Player.velocityY (player g') = 0)
    /\ (lethal = true <-> rectanglesOverlap g o /\ ~ landingCondition g o)
    /\ (lethal = true -> gameState g' = gameOver)
    /\ (forall obs : list Obstacle.t,
          snd (checkObstacles random g obs) = true ->
          exists before o' after g0,
            obs = before ++ o' :: after
            /\ checkObstacles random g before = (g0, false)
            /\ snd (checkObstacle random g0 o') = true
            /\ (Obstacle.type o' = block ->
                rectanglesOverlap g0 o' /\ ~ landingCondition g0 o')).
Proof.
  intros random g o Hblock g' lethal.
  split; [|split; [|split]].
  - intro L. subst g' lethal. unfold checkObstacle. rewrite Hblock.
    pose proof (proj2 (blockLanding_iff g o) L) as El. rewrite El.
    destruct (land_shape random g (Obstacle.y o) "#ffaa00") as (ps & k & E).
    cbn [fst snd]. rewrite E. cbn. repeat split. lra.
  - apply checkObstacle_block_lethal. exact Hblock.
  - subst g' lethal. unfold checkObstacle. rewrite Hblock.
    destruct (blockLanding g o); [discriminate|].
    destruct (blockOverlap g o); [reflexivity|discriminate].
  - intros obs Hstop.
    destruct (checkObstacles_lethal random obs g Hstop)
      as (before & o' & after & g0 & Hobs & Hbefore & Hleth).
    exists before, o', after, g0.
    split; [exact Hobs|]. split; [exact Hbefore|]. split; [exact Hleth|].
    intro Hb. apply (checkObstacle_block_lethal random g0 o' Hb). exact Hleth.
Qed.

Lemma block_landing_precedes_lethal_witness :
  Obstacle.type (Obstacle.mk 120 500 40 60 block "#ffaa00") = block
  /\ blockLanding blockSession (Obstacle.mk 120 500 40 60 block "#ffaa00") = true
  /\ blockOverlap blockSession (Obstacle.mk 120 500 40 60 block "#ffaa00") = true
  /\ snd (checkObstacle alwaysHalf blockSession (Obstacle.mk 120 500 40 60 block "#ffaa00"))
     = false.
Proof.
  split; [reflexivity|]. split; [reflexivity|]. split; [reflexivity|].
  refine (proj1 (proj1
    (block_landing_precedes_lethal alwaysHalf blockSession
       (Obstacle.mk 120 500 40 60 block "#ffaa00") eq_refl) _)).
  unfold landingCondition, horizontalOverlap. cbn. unfold Qlt, Qle. cbn. lia.
Defined.

(** ** Scroll, cull and score *)

Section Cull.

Context {A : Type}.

Lemma nth_error_middle (l r : list A) (a : A) :
  nth_error (l ++ a :: r) (List.length l) = Some a.
Proof. induction l as [|b l IH]; [reflexivity|exact IH]. Qed.

Lemma splice1_middle (l r : list A) (a : A) :
  splice1 (List.length l) (l ++ a :: r) = l ++ r.
Proof.
  unfold splice1. induction l as [|b l IH]; [reflexivity|].
  cbn [List.length app firstn skipn] in *. f_equal. exact IH.
Qed.

Lemma replaceAt_middle (l r : list A) (a v : A) :
  replaceAt (List.length l) v (l ++ a :: r) = l ++ v :: r.
Proof.
  unfold replaceAt. induction l as [|b l IH]; [reflexivity|].
  cbn [List.length app firstn skipn] in *. f_equal. exact IH.
Qed.

End Cull.

(** The backward loop over the obstacles computes the filter and the count
    of the specification; the elements behind the visited prefix are not
    touched. *)
Lemma updateObstacles_loop_spec (speed camera : Q) (visited : list Obstacle.t) :
  forall (done : list Obstacle.t) (sc : Z),
    updateObstacles_loop (List.length visited) speed camera (visited ++ done) sc
    = (filter (fun o => negb (obstacleBehind camera o))
         (map (scrolledObstacle speed) visited) ++ done,
       (sc + 10 * Z.of_nat
                  (List.length
                     (filter (obstacleBehind camera)
                        (map (scrolledObstacle speed) visited))))%Z).
Proof.
  induction visited as [|o l IH] using rev_ind; intros done sc.
  - cbn. f_equal. lia.
  - rewrite length_app, Nat.add_comm. cbn [List.length Nat.add].
    rewrite <- app_assoc. cbn [app updateObstacles_loop].
    rewrite nth_error_middle, splice1_middle, replaceAt_middle.
    rewrite map_app, !filter_app, length_app. cbn [map filter].
    fold (scrolledObstacle speed o).
    fold (obstacleBehind camera (scrolledObstacle speed o)).
    destruct (obstacleBehind camera (scrolledObstacle speed o)); cbn [negb].
    + rewrite IH. rewrite app_nil_r. f_equal. cbn [List.length]. lia.
    + rewrite IH. rewrite <- app_assoc. f_equal. cbn [List.length]. lia.
Qed.

Lemma updatePlatforms_loop_spec (speed camera : Q) (visited : list Platform.t) :
  forall done : list Platform.t,
    updatePlatforms_loop (List.length visited) speed camera (visited ++ done)
    = filter (fun p => negb (platformBehind camera p))
        (map (scrolledPlatform speed) visited) ++ done.
Proof.
  induction visited as [|p l IH] using rev_ind; intro done.
  - reflexivity.
  - rewrite length_app, Nat.add_comm. cbn [List.length Nat.add].
    rewrite <- app_assoc. cbn [app updatePlatforms_loop].
    rewrite nth_error_middle, splice1_middle, replaceAt_middle.
    rewrite map_app, filter_app. cbn [map filter].
    fold (scrolledPlatform speed p).
    fold (platformBehind camera (scrolledPlatform speed p)).
    destruct (platformBehind camera (scrolledPlatform speed p)); cbn [negb].
    + rewrite IH. rewrite app_nil_r. reflexivity.
    + rewrite IH. rewrite <- app_assoc. reflexivity.
Qed.

(** What [updateObstacles] does to the two lists and to the score. *)
Lemma updateObstacles_spec (g : Game) :
  let moved := map (scrolledObstacle (gameSpeed g)) (obstacles g) in
  obstacles (updateObstacles g)
  = filter (fun o => negb (obstacleBehind (cameraX g) o)) moved
  /\ platforms (updateObstacles g)
     = filter (fun p => negb (platformBehind (cameraX g) p))
         (map (scrolledPlatform (gameSpeed g)) (platforms g))
  /\ score (updateObstacles g)
     = (score g
        + 10 * Z.of_nat (List.length (filter (obstacleBehind (cameraX g)) moved)))%Z.
Proof.
  intro moved. unfold updateObstacles.
  pose proof (updateObstacles_loop_spec (gameSpeed g) (cameraX g) (obstacles g) []
                (score g)) as Ho.
  rewrite !app_nil_r in Ho. rewrite Ho. cbn.
  pose proof (updatePlatforms_loop_spec (gameSpeed g) (cameraX g) (platforms g) [])
    as Hp.
  rewrite !app_nil_r in Hp. rewrite Hp.
  repeat split.
Qed.

Lemma filter_split_length {A : Type} (f : A -> bool) (l : list A) :
  (List.length (filter f l) + List.length (filter (fun a => negb (f a)) l))%nat
  = List.length l.
Proof.
  induction l as [|a l IH]; [reflexivity|].
  cbn [filter]. destruct (f a); cbn [negb List.length]; lia.
Qed.

(** C5.  One scroll-and-cull pass: the obstacles kept are, in their order,
    those whose right edge is not behind the camera offset once moved left
    by the speed, with nothing changed but [x]; the same holds of the
    platforms; the score grows by 10 for each obstacle removed and by
    nothing else, whatever the platforms are. *)
Theorem score_counts_culled_obstacles :
  forall g : Game,
    let g' := updateObstacles g in
    let moved := map (scrolledObstacle (gameSpeed g)) (obstacles g) in
    let culled := filter (obstacleBehind (cameraX g)) moved in
    obstacles g' = filter (fun o => negb (obstacleBehind (cameraX g) o)) moved
    /\ platforms g'
       = filter (fun p => negb (platformBehind (cameraX g) p))
           (map (scrolledPlatform (gameSpeed g)) (platforms g))
    /\ score g' = (score g + 10 * Z.of_nat (List.length culled))%Z
    /\ (List.length culled + List.length (obstacles g'))%nat = List.length (obstacles g)
    /\ (forall pls : list Platform.t,
          score (updateObstacles (set_platforms g pls)) = score g'
          /\ obstacles (updateObstacles (set_platforms g pls)) = obstacles g').
Proof.
  intros g g' moved culled.
  destruct (updateObstacles_spec g) as (Ho & Hp & Hs).
  fold g' in Ho, Hp, Hs. fold moved in Ho, Hs. fold culled in Hs.
  split; [exact Ho|]. split; [exact Hp|]. split; [exact Hs|]. split.
  - rewrite Ho. unfold culled. rewrite filter_split_length.
    unfold moved. apply length_map.
  - intro pls.
    destruct (updateObstacles_spec (set_platforms g pls)) as (Ho' & _ & Hs').
    cbn in Ho', Hs'. fold moved in Ho', Hs'. fold culled in Hs'.
    rewrite Ho', Hs', Ho, Hs. split; reflexivity.
Qed.

(** A pass run on two obstacles and two platforms, one of each behind the
    camera: the score goes from 30 to 40. *)
Example scroll_and_cull_run :
  let g :=
    set_score
      (set_cameraX
         (set_platforms
            (set_obstacles freshSession
               [newSpike 40 520; Obstacle.mk 300 450 40 60 block "#ffaa00"])
            [Platform.mk 10 400 80 20 "#00aaff"; Platform.mk 500 400 120 20 "#00aaff"])
         100)
      30 in
  obstacles (updateObstacles g) = [Obstacle.mk (300 - 5) 450 40 60 block "#ffaa00"]
  /\ platforms (updateObstacles g) = [Platform.mk (500 - 5) 400 120 20 "#00aaff"]
  /\ score (updateObstacles g) = 40%Z.
Proof. repeat split. Qed.

(** ** Spawn planner *)

Section Spawn.

Variable random : nat -> Q.

(** Every way [generateObstacles] can end, by what it appends. *)
Lemma generateObstacles_cases (g : Game) :
  let g' := generateObstacles random g in
  (obstacles g' = obstacles g /\ platforms g' = platforms g)
  \/ (exists y,
        obstacles g' = obstacles g ++ [newSpike (spawnX g) y]
        /\ platforms g' = platforms g)
  \/ (exists y,
        obstacles g' = obstacles g ++ [newSpike (spawnX g) y; newSpike (spawnX g + 50) y]
        /\ platforms g' = platforms g)
  \/ (exists y,
        obstacles g'
        = obstacles g
          ++ [newSpike (spawnX g) y; newSpike (spawnX g + 50) y; newSpike (spawnX g + 100) y]
        /\ platforms g' = platforms g)
  \/ (exists h,
        obstacles g'
        = obstacles g ++ [Obstacle.mk (spawnX g) (gameHeight g - h) 40 60 block "#ffaa00"]
        /\ platforms g' = platforms g)
  \/ (exists w h,
        obstacles g' = obstacles g
        /\ platforms g'
           = platforms g ++ [Platform.mk (spawnX g) (gameHeight g - h) w 20 "#00aaff"]).
Proof.
  cbv zeta. unfold spawnX.
  unfold generateObstacles, nextRandom, pushObstacle, pushPlatform;
    repeat match goal with
      | |- context [if ?c then _ else _] => destruct c
      | |- context [match arrayGet ?a ?i with _ => _ end] => destruct (arrayGet a i)
      | |- context [match ?f with f_spike => _ | _ => _ end] => destruct f
      end;
    cbn [obstacles platforms gameWidth gameHeight cameraX set_randomCalls
         set_obstacles set_platforms];
    rewrite <- ?app_assoc; cbn [app];
    first
      [ left; split; reflexivity
      | right; left; eexists; split; reflexivity
      | right; right; left; eexists; split; reflexivity
      | right; right; right; left; eexists; split; reflexivity
      | right; right; right; right; left; eexists; split; reflexivity
      | right; right; right; right; right; do 2 eexists; split; reflexivity ].
Qed.

Lemma skipn_length_app {A : Type} (l r : list A) : skipn (List.length l) (l ++ r) = r.
Proof. induction l as [|a l IH]; [reflexivity|exact IH]. Qed.

Lemma spawnedObstacles_app (g : Game) :
  obstacles (generateObstacles random g) = obstacles g ++ spawnedObstacles random g.
Proof.
  unfold spawnedObstacles.
  destruct (generateObstacles_cases g)
    as [[E _]|[(y & E & _)|[(y & E & _)|[(y & E & _)|[(h & E & _)|(w & h & E & _)]]]]];
    rewrite E; try rewrite skipn_length_app; try reflexivity;
    rewrite skipn_all, app_nil_r; reflexivity.
Qed.

Lemma spawnedPlatforms_app (g : Game) :
  platforms (generateObstacles random g) = platforms g ++ spawnedPlatforms random g.
Proof.
  unfold spawnedPlatforms.
  destruct (generateObstacles_cases g)
    as [[_ E]|[(y & _ & E)|[(y & _ & E)|[(y & _ & E)|[(h & _ & E)|(w & h & _ & E)]]]]];
    rewrite E; try rewrite skipn_length_app; try reflexivity;
    rewrite skipn_all, app_nil_r; reflexivity.
Qed.

(** The same case analysis on the appended entities alone. *)
Lemma spawned_cases (g : Game) :
  (spawnedObstacles random g = [] /\ spawnedPlatforms random g = [])
  \/ (exists y,
        spawnedObstacles random g = [newSpike (spawnX g) y]
        /\ spawnedPlatforms random g = [])
  \/ (exists y,
        spawnedObstacles random g = [newSpike (spawnX g) y; newSpike (spawnX g + 50) y]
        /\ spawnedPlatforms random g = [])
  \/ (exists y,
        spawnedObstacles random g
        = [newSpike (spawnX g) y; newSpike (spawnX g + 50) y; newSpike (spawnX g + 100) y]
        /\ spawnedPlatforms random g = [])
  \/ (exists h,
        spawnedObstacles random g
        = [Obstacle.mk (spawnX g) (gameHeight g - h) 40 60 block "#ffaa00"]
        /\ spawnedPlatforms random g = [])
  \/ (exists w h,
        spawnedObstacles random g = []
        /\ spawnedPlatforms random g
           = [Platform.mk (spawnX g) (gameHeight g - h) w 20 "#00aaff"]).
Proof.
  unfold spawnedObstacles, spawnedPlatforms.
  destruct (generateObstacles_cases g)
    as [[Eo Ep]|[(y & Eo & Ep)|[(y & Eo & Ep)|[(y & Eo & Ep)|[(h & Eo & Ep)
       |(w & h & Eo & Ep)]]]]];
    rewrite Eo, Ep; rewrite ?skipn_length_app, ?skipn_all.
  - left. split; reflexivity.
  - right; left. exists y. split; reflexivity.
  - right; right; left. exists y. split; reflexivity.
  - right; right; right; left. exists y. split; reflexivity.
  - right; right; right; right; left. exists h. split; reflexivity.
  - right; right; right; right; right. exists w, h. split; reflexivity.
Qed.

End Spawn.



(** ** Spikes and the point-in-triangle test *)

(** The denominator of the barycentric coordinates, for the triangle of a
    spike, is the spike's width times its height. *)
Lemma trianglePoints_denominator (g : Game) (o : Obstacle.t) :
  pointInTriangle_denominator (trianglePoints g o)
  == Obstacle.width o * Obstacle.height o.
Proof. unfold pointInTriangle_denominator, trianglePoints. cbn. field. Qed.

Lemma pointInTriangle_defined (point : Point.t) (triangle : Triangle) :
  pointInTriangle point triangle <> None
  <-> ~ pointInTriangle_denominator triangle == 0.
Proof.
  destruct triangle as [[p1 p2] p3]. unfold pointInTriangle, divide.
  destruct (pointInTriangle_denominator (p1, p2, p3) =? 0) eqn:E; qprop.
  - split; [intro H; exfalso; apply H; reflexivity | intro H; contradiction].
  - split; [intros _; exact E | intros _; discriminate].
Qed.

Section Spikes.

Variable random : nat -> Q.

Lemma generateObstacles_spikes40 (g : Game) :
  spikes40 (obstacles g) -> spikes40 (obstacles (generateObstacles random g)).
Proof.
  intro H. rewrite spawnedObstacles_app. apply Forall_app. split; [exact H|].
  destruct (spawned_cases random g)
    as [[Eo _]|[(y & Eo & _)|[(y & Eo & _)|[(y & Eo & _)|[(h & Eo & _)
       |(w & h & Eo & _)]]]]];
    rewrite Eo; repeat constructor; cbn; discriminate.
Qed.

Lemma updateObstacles_spikes40 (g : Game) :
  spikes40 (obstacles g) -> spikes40 (obstacles (updateObstacles g)).
Proof.
  intro H. destruct (updateObstacles_spec g) as (Ho & _). rewrite Ho.
  apply incl_Forall with (l1 := map (scrolledObstacle (gameSpeed g)) (obstacles g)).
  - apply incl_filter.
  - apply Forall_map. exact H.
Qed.

Lemma checkCollisions_obstacles (g : Game) :
  obstacles (checkCollisions random g) = obstacles g.
Proof.
  destruct (checkCollisions_shape random g) as (st & y & vy & ps & k & E).
  rewrite E. reflexivity.
Qed.

Lemma jump_obstacles (g : Game) : obstacles (jump random g) = obstacles g.
Proof.
  destruct (jump_shape random g) as (vy & gr & ps & k & E). rewrite E. reflexivity.
Qed.

Lemma autoJump_obstacles (g : Game) (now : Z) :
  obstacles (fst (autoJump random g now)) = obstacles g.
Proof.
  destruct (autoJump_cases random g now) as [E | [E _]]; rewrite E; cbn [fst].
  - reflexivity.
  - apply jump_obstacles.
Qed.

Lemma tick_spikes40 (g : Game) (now : Z) :
  spikes40 (obstacles g) -> spikes40 (obstacles (tick random g now)).
Proof.
  intro H. unfold tick, update.
  destruct (gameState g); try exact H.
  assert (Hc : spikes40 (obstacles (tickUntilCollisions random g))).
  { unfold tickUntilCollisions. rewrite checkCollisions_obstacles.
    apply updateObstacles_spikes40, generateObstacles_spikes40. exact H. }
  destruct (autoMode (updateCamera (tickUntilCollisions random g))).
  - rewrite autoJump_obstacles. exact Hc.
  - exact Hc.
Qed.

Lemma handle_spikes40 (g : Game) (e : Event) :
  spikes40 (obstacles g) -> spikes40 (obstacles (fst (handle random g e))).
Proof.
  intro H. destruct e as [code|code| | |touch|w h|now]; cbn [handle].
  - destruct (String.eqb code "Space"); [|exact H].
    cbn [gameState set_keys]. destruct (gameState g); cbn [fst]; try exact H.
    rewrite jump_obstacles. exact H.
  - exact H.
  - exact H.
  - constructor.
  - destruct (touch - touchStartTime g <? touchCooldown g)%Z; [exact H|].
    cbn [gameState set_touchStartTime].
    destruct (gameState g); cbn [fst]; try exact H.
    rewrite jump_obstacles. exact H.
  - cbn [fst]. unfold resizeCanvas. cbn [gameState set_gameHeight set_gameWidth].
    destruct (gameState g); exact H.
  - pose proof (tick_spikes40 g now H) as Ht. unfold tick in Ht.
    destruct (update random g now) as [g' jumped]. exact Ht.
Qed.

Lemma reachable_spikes40 (g : Game) : reachable random g -> spikes40 (obstacles g).
Proof.
  induction 1 as [w h|g e Hg IH].
  - constructor.
  - apply handle_spikes40. exact IH.
Qed.

End Spikes.

(** C10.  [pointInTriangle] divides without a guard: with a zero
    denominator its quotients are not numbers.  In every state a session
    can reach, each spike of the obstacle list is 40 wide and 40 high, so
    that the denominator for its triangle is 1600, not zero, and the test
    is well defined at every point. *)
Theorem spike_triangle_denominator_nonzero :
  forall (random : nat -> Q) (g : Game) (o : Obstacle.t) (point : Point.t),
    reachable random g ->
    In o (obstacles g) ->
    Obstacle.type o = spike ->
    (forall triangle : Triangle,
       pointInTriangle_denominator triangle == 0 ->
       pointInTriangle point triangle = None)
    /\ Obstacle.width o = 40
    /\ Obstacle.height o = 40
    /\ pointInTriangle_denominator (trianglePoints g o) == 1600
    /\ ~ pointInTriangle_denominator (trianglePoints g o) == 0
    /\ pointInTriangle point (trianglePoints g o) <> None.
Proof.
  intros random g o point Hreach Hin Hspike.
  split.
  { intros triangle Hz.
    destruct (pointInTriangle point triangle) eqn:E; [|reflexivity].
    exfalso. assert (Hd : pointInTriangle point triangle <> None) by congruence.
    apply pointInTriangle_defined in Hd. contradiction. }
  pose proof (reachable_spikes40 random g Hreach) as Hall.
  unfold spikes40 in Hall. rewrite Forall_forall in Hall.
  destruct (Hall o Hin Hspike) as [Hw Hh].
  assert (Hden : pointInTriangle_denominator (trianglePoints g o) == 1600).
  { rewrite trianglePoints_denominator, Hw, Hh. reflexivity. }
  assert (Hnz : ~ pointInTriangle_denominator (trianglePoints g o) == 0).
  { rewrite Hden. discriminate. }
  repeat split; try assumption.
  apply pointInTriangle_defined. exact Hnz.
Qed.

Lemma spike_triangle_denominator_nonzero_witness :
  reachable alwaysZero (fst (handle alwaysZero freshSession (Frame 0)))
  /\ In (newSpike (800 + 0 - 5) (600 - 80))
       (obstacles (fst (handle alwaysZero freshSession (Frame 0))))
  /\ pointInTriangle_denominator
       (trianglePoints (fst (handle alwaysZero freshSession (Frame 0)))
          (newSpike (800 + 0 - 5) (600 - 80)))
     == 1600.
Proof.
  assert (R : reachable alwaysZero (fst (handle alwaysZero freshSession (Frame 0)))).
  { apply reachable_handle.
    apply (reachable_handle alwaysZero (newGame 800 600) ClickStart).
    apply reachable_new. }
  assert (I : In (newSpike (800 + 0 - 5) (600 - 80))
                (obstacles (fst (handle alwaysZero freshSession (Frame 0))))).
  { left. reflexivity. }
  split; [exact R|]. split; [exact I|].
  exact (proj1 (proj2 (proj2 (proj2
    (spike_triangle_denominator_nonzero alwaysZero _ _ (Point.mk 0 0) R I eq_refl))))).
Defined.

(** ** Autoplay controller *)

Section Autoplay.

Variable random : nat -> Q.

(** What one event does to the time stamp of the last autoplay jump. *)
Lemma handle_autoplay (g : Game) (e : Event) :
  let g' := fst (handle random g e) in
  autoJumpCooldown g' = autoJumpCooldown g
  /\ match snd (handle random g e) with
     | Some t =>
         lastAutoJumpTime g' = t
         /\ (lastAutoJumpTime g + autoJumpCooldown g <= t)%Z
     | None => lastAutoJumpTime g' = lastAutoJumpTime g
     end.
Proof.
  destruct e as [code|code| | |touch|w h|now]; cbn [handle].
  - destruct (String.eqb code "Space"); [|split; reflexivity].
    cbn [gameState set_keys]. destruct (gameState g); cbn [fst snd];
      try (split; reflexivity).
    match goal with
    | |- context [jump random ?g1] =>
        destruct (jump_steady random g1) as (_ & _ & _ & _ & _ & _ & _ & _ & Hl & Hc)
    end.
    split; assumption.
  - split; reflexivity.
  - split; reflexivity.
  - split; reflexivity.
  - destruct (touch - touchStartTime g <? touchCooldown g)%Z; [split; reflexivity|].
    cbn [gameState set_touchStartTime]. destruct (gameState g); cbn [fst snd];
      try (split; reflexivity).
    match goal with
    | |- context [jump random ?g1] =>
        destruct (jump_steady random g1) as (_ & _ & _ & _ & _ & _ & _ & _ & Hl & Hc)
    end.
    split; assumption.
  - cbn [fst snd]. unfold resizeCanvas. cbn [gameState set_gameHeight set_gameWidth].
    destruct (gameState g); split; reflexivity.
  - unfold update. destruct (gameState g); try (split; reflexivity).
    set (c := tickUntilCollisions random g).
    destruct (tickUntilCollisions_steady random g)
      as (_ & _ & _ & _ & _ & _ & _ & _ & Hl & Hc).
    fold c in Hl, Hc.
    destruct (autoMode (updateCamera c)); [|split; assumption].
    destruct (autoJump_cases random (updateCamera c) now) as [E | (E & _ & Hcool)];
      rewrite E; cbn [fst snd].
    + split; assumption.
    + destruct (jump_steady random (updateCamera c))
        as (_ & _ & _ & _ & _ & _ & _ & _ & _ & Hcj).
      cbn in Hcool. cbn. rewrite Hcj. cbn. split; [exact Hc|].
      split; [reflexivity|]. rewrite <- Hl, <- Hc. lia.
Qed.

(** Over a run, each autoplay jump comes at least one cooldown after the
    time stamp the run started with, and after every earlier one. *)
Lemma run_autoplay_gaps (es : list Event) :
  forall g : Game,
    (0 <= autoJumpCooldown g)%Z ->
    let js := snd (run random g es) in
    StronglySorted (fun t1 t2 => (t1 + autoJumpCooldown g <= t2)%Z) js
    /\ Forall (fun t => (lastAutoJumpTime g + autoJumpCooldown g <= t)%Z) js.
Proof.
  induction es as [|e rest IH]; intros g Hpos; cbn [run].
  - split; constructor.
  - destruct (handle_autoplay g e) as (Hc & Hj).
    destruct (handle random g e) as [g1 j]. cbn [fst snd] in Hc, Hj.
    assert (Hpos1 : (0 <= autoJumpCooldown g1)%Z) by (rewrite Hc; exact Hpos).
    destruct (IH g1 Hpos1) as (Hsorted & Hall).
    destruct (run random g1 rest) as [g2 js]. cbn [snd] in *.
    rewrite Hc in Hsorted, Hall.
    destruct j as [t|].
    + destruct Hj as (Hlast & Hgap). rewrite Hlast in Hall.
      split.
      * constructor; assumption.
      * constructor; [exact Hgap|].
        eapply Forall_impl; [|exact Hall]. cbn. intros b Hb. lia.
    + rewrite Hj in Hall. split; assumption.
Qed.

End Autoplay.

(** C7.  A call of the autoplay controller does nothing when the player is
    not grounded, and nothing when less than the cooldown has elapsed since
    the last autoplay jump; it calls [jump()] only from a grounded state
    with the cooldown elapsed.  Over any run of a session, the times of the
    autoplay jumps, in order, are pairwise at least 800 ms apart. *)
Theorem autoplay_respects_ground_and_cooldown :
  forall (random : nat -> Q) (width height : Q) (es : list Event),
    (forall (g : Game) (now : Z),
       Player.isGrounded (player g) = false -> autoJump random g now = (g, false))
    /\ (forall (g : Game) (now : Z),
          (now - lastAutoJumpTime g < autoJumpCooldown g)%Z ->
          autoJump random g now = (g, false))
    /\ (forall (g : Game) (now : Z),
          snd (autoJump random g now) = true ->
          Player.isGrounded (player g) = true
          /\ (autoJumpCooldown g <= now - lastAutoJumpTime g)%Z)
    /\ StronglySorted (fun t1 t2 => (t1 + 800 <= t2)%Z)
         (snd (run random (newGame width height) es)).
Proof.
  intros random width height es.
  split; [|split; [|split]].
  - intros g now Hair. unfold autoJump. rewrite Hair. reflexivity.
  - intros g now Hcool. unfold autoJump.
    destruct (negb (Player.isGrounded (player g))); [reflexivity|].
    apply Z.ltb_lt in Hcool. rewrite Hcool. reflexivity.
  - intros g now Hjump.
    destruct (autoJump_cases random g now) as [E | (_ & Hg & Hc)].
    + rewrite E in Hjump. discriminate Hjump.
    + split; assumption.
  - assert (Hpos : (0 <= autoJumpCooldown (newGame width height))%Z)
      by (cbn; lia).
    exact (proj1 (run_autoplay_gaps random es (newGame width height) Hpos)).
Qed.

(** A run with the A key held.  The player, put 10 above the ground by the
    resize, lands on the fifth frame; the controller then finds no obstacle
    ahead and wants to jump, but the time stamps up to 799 are within the
    cooldown of the initial [lastAutoJumpTime] (0): the one jump of the run
    is issued at 800. *)
Example autoplay_run :
  snd (run alwaysHalf (newGame 800 600)
         [ClickStart; Resize 800 600; KeyDown "KeyA";
          Frame 0; Frame 16; Frame 32; Frame 48; Frame 64;
          Frame 500; Frame 799; Frame 800; Frame 816])
  = [800%Z].
Proof. vm_compute. reflexivity. Qed.

(** ** Restart *)

(** C3.  [restartGame] empties the three lists and resets the score, the
    distance, the speed, the camera offset and the player's [x], vertical
    velocity, grounded flag and rotation to the values of a fresh session
    entering the playing phase; but it puts the player at
    [y = gameHeight - 100], while the fresh session's player is at [y = 0],
    the constructor's literal, which [setupResponsiveCanvas] never replaces
    before the first tick. *)
Theorem restart_pose_differs_from_fresh_session :
  forall g : Game,
    let r := restartGame g in
    let fresh := startGame (newGame (gameWidth g) (gameHeight g)) in
    gameState r = playing /\ gameState fresh = playing
    /\ obstacles r = [] /\ obstacles fresh = []
    /\ platforms r = [] /\ platforms fresh = []
    /\ particles r = [] /\ particles fresh = []
    /\ score r = 0%Z /\ score fresh = 0%Z
    /\ distance r = 0%Z /\ distance fresh = 0%Z
    /\ gameSpeed r = 5 /\ gameSpeed fresh = 5
    /\ cameraX r = 0 /\ cameraX fresh = 0
    /\ Player.x (player r) = Player.x (player fresh)
    /\ Player.velocityY (player r) = Player.velocityY (player fresh)
    /\ Player.isGrounded (player r) = Player.isGrounded (player fresh)
    /\ Player.rotation (player r) = Player.rotation (player fresh)
    /\ Player.y (player r) = gameHeight g - 100
    /\ Player.y (player fresh) = 0
    /\ (~ gameHeight g == 100 -> ~ Player.y (player r) == Player.y (player fresh)).
Proof.
  intros g r fresh. subst r fresh. cbn.
  repeat split. intros Hh Hy. apply Hh. lra.
Qed.

(** The same on a run: in a 100 x 120 container the first tick ends the run
    (the spike spawns under the player); after the restart the player is at
    [y = 20], and at [y = 0] in the fresh session. *)
Example restart_after_game_over :
  let ended := fst (run alwaysZero (newGame 100 120) [ClickStart; Frame 0]) in
  let restarted := fst (handle alwaysZero ended ClickRestart) in
  gameState ended = gameOver
  /\ gameState restarted = playing
  /\ Player.y (player restarted) == 20
  /\ Player.y (player (startGame (newGame 100 120))) == 0.
Proof. vm_compute. repeat split. Qed.

(** * Further properties of the code *)

(** ** Geometry kernel: what the two tests decide *)





(** ** Spike contact stays inside the spike's bounding box *)

(** A point the barycentric test accepts is in every box that holds the
    three vertices. *)
Lemma pointInTriangle_inBox (p p1 p2 p3 : Point.t) (lx hx ly hy : Q) :
  truthy (pointInTriangle p (p1, p2, p3)) = true ->
  inBox lx hx ly hy p1 -> inBox lx hx ly hy p2 -> inBox lx hx ly hy p3 ->
  inBox lx hx ly hy p.
Proof.
  intros Ht B1 B2 B3.
  destruct (pointInTriangle p (p1, p2, p3)) as [[|]|] eqn:E; try discriminate Ht.
  assert (Hden : ~ pointInTriangle_denominator (p1, p2, p3) == 0).
  { apply (pointInTriangle_defined p). rewrite E. discriminate. }
  unfold pointInTriangle, divide in E.
  destruct (pointInTriangle_denominator (p1, p2, p3) =? 0) eqn:Ez; [discriminate E|].
  injection E as E. qprop.
  unfold pointInTriangle_denominator in *.
  set (den := (Point.y p2 - Point.y p3) * (Point.x p1 - Point.x p3)
              + (Point.x p3 - Point.x p2) * (Point.y p1 - Point.y p3)) in *.
  set (a := ((Point.y p2 - Point.y p3) * (Point.x p - Point.x p3)
             + (Point.x p3 - Point.x p2) * (Point.y p - Point.y p3)) / den) in *.
  set (b := ((Point.y p3 - Point.y p1) * (Point.x p - Point.x p3)
             + (Point.x p1 - Point.x p3) * (Point.y p - Point.y p3)) / den) in *.
  assert (Hx : Point.x p
               == a * Point.x p1 + b * Point.x p2 + (1 - a - b) * Point.x p3)
    by (unfold a, b, den; field; exact Hden).
  assert (Hy : Point.y p
               == a * Point.y p1 + b * Point.y p2 + (1 - a - b) * Point.y p3)
    by (unfold a, b, den; field; exact Hden).
  unfold inBox in *.
  destruct B1 as (? & ? & ? & ?), B2 as (? & ? & ? & ?), B3 as (? & ? & ? & ?).
  rewrite Hx, Hy. repeat split; nra.
Qed.

(** Two segments that [linesIntersect] finds crossing lie in boxes that
    have a point in common. *)
Lemma linesIntersect_boxes (p1 p2 p3 p4 : Point.t) (lx hx ly hy lx' hx' ly' hy' : Q) :
  linesIntersect p1 p2 p3 p4 = true ->
  inBox lx hx ly hy p1 -> inBox lx hx ly hy p2 ->
  inBox lx' hx' ly' hy' p3 -> inBox lx' hx' ly' hy' p4 ->
  lx' <= hx /\ lx <= hx' /\ ly' <= hy /\ ly <= hy'.
Proof.
  intros Hi B1 B2 B3 B4.
  unfold linesIntersect in Hi.
  destruct (linesIntersect_denominator p1 p2 p3 p4 =? 0) eqn:Ez; [discriminate Hi|].
  qprop.
  unfold linesIntersect_ua, linesIntersect_ub, linesIntersect_denominator in *.
  set (den := (Point.y p4 - Point.y p3) * (Point.x p2 - Point.x p1)
              - (Point.x p4 - Point.x p3) * (Point.y p2 - Point.y p1)) in *.
  set (s := ((Point.x p4 - Point.x p3) * (Point.y p1 - Point.y p3)
             - (Point.y p4 - Point.y p3) * (Point.x p1 - Point.x p3)) / den) in *.
  set (t := ((Point.x p2 - Point.x p1) * (Point.y p1 - Point.y p3)
             - (Point.y p2 - Point.y p1) * (Point.x p1 - Point.x p3)) / den) in *.
  assert (Hx : Point.x p1 + s * (Point.x p2 - Point.x p1)
               == Point.x p3 + t * (Point.x p4 - Point.x p3))
    by (unfold s, t, den; field; exact Ez).
  assert (Hy : Point.y p1 + s * (Point.y p2 - Point.y p1)
               == Point.y p3 + t * (Point.y p4 - Point.y p3))
    by (unfold s, t, den; field; exact Ez).
  unfold inBox in *.
  destruct B1 as (? & ? & ? & ?), B2 as (? & ? & ? & ?),
    B3 as (? & ? & ? & ?), B4 as (? & ? & ? & ?).
  repeat split; nra.
Qed.

(** X3.  [checkSpikeCollision] reports a contact only when the player's
    rectangle and the closed bounding box of the spike have a point in
    common: a spike that is wholly to the left or right of the player, or
    wholly above or below, is never lethal.  (Sizes are not negative.) *)
Theorem checkSpikeCollision_within_bounding_box :
  forall (g : Game) (o : Obstacle.t),
    0 <= Player.width (player g) ->
    0 <= Player.height (player g) ->
    0 <= Obstacle.width o ->
    0 <= Obstacle.height o ->
    checkSpikeCollision g o = true ->
    boxesTouch g o.
Proof.
  intros g o Hpw Hph Hw Hh Hc.
  unfold boxesTouch.
  set (sx := Obstacle.x o - cameraX g) in *.
  set (bx := inBox sx (sx + Obstacle.width o) (Obstacle.y o)
               (Obstacle.y o + Obstacle.height o)).
  set (px := inBox (Player.x (player g)) (Player.x (player g) + Player.width (player g))
               (Player.y (player g)) (Player.y (player g) + Player.height (player g))).
  assert (Ehalf : Obstacle.width o / 2 == Obstacle.width o * (1 # 2)) by field.
  assert (T0 : bx (Point.mk sx (Obstacle.y o + Obstacle.height o)))
    by (unfold bx, inBox; cbn [Point.x Point.y]; repeat split; lra).
  assert (T1 : bx (Point.mk (sx + Obstacle.width o / 2) (Obstacle.y o)))
    by (unfold bx, inBox; cbn [Point.x Point.y]; repeat split; lra).
  assert (T2 : bx (Point.mk (sx + Obstacle.width o) (Obstacle.y o + Obstacle.height o)))
    by (unfold bx, inBox; cbn [Point.x Point.y]; repeat split; lra).
  assert (C0 : px (Point.mk (Player.x (player g)) (Player.y (player g))))
    by (unfold px, inBox; cbn [Point.x Point.y]; repeat split; lra).
  assert (C1 : px (Point.mk (Player.x (player g) + Player.width (player g))
                     (Player.y (player g))))
    by (unfold px, inBox; cbn [Point.x Point.y]; repeat split; lra).
  assert (C2 : px (Point.mk (Player.x (player g))
                     (Player.y (player g) + Player.height (player g))))
    by (unfold px, inBox; cbn [Point.x Point.y]; repeat split; lra).
  assert (C3 : px (Point.mk (Player.x (player g) + Player.width (player g))
                     (Player.y (player g) + Player.height (player g))))
    by (unfold px, inBox; cbn [Point.x Point.y]; repeat split; lra).
  assert (Both : forall p, bx p -> px p ->
            Player.x (player g) <= sx + Obstacle.width o
            /\ sx <= Player.x (player g) + Player.width (player g)
            /\ Player.y (player g) <= Obstacle.y o + Obstacle.height o
            /\ Obstacle.y o <= Player.y (player g) + Player.height (player g)).
  { intros p (? & ? & ? & ?) (? & ? & ? & ?). repeat split; lra. }
  assert (Cross : forall a b c d, bx a -> bx b -> px c -> px d ->
            linesIntersect a b c d = true ->
            Player.x (player g) <= sx + Obstacle.width o
            /\ sx <= Player.x (player g) + Player.width (player g)
            /\ Player.y (player g) <= Obstacle.y o + Obstacle.height o
            /\ Obstacle.y o <= Player.y (player g) + Player.height (player g)).
  { intros a b c d Ba Bb Pc Pd Hi.
    destruct (linesIntersect_boxes a b c d _ _ _ _ _ _ _ _ Hi Ba Bb Pc Pd)
      as (? & ? & ? & ?).
    repeat split; assumption. }
  unfold checkSpikeCollision, trianglePoints in Hc. fold sx in Hc.
  cbn [existsb fst snd] in Hc.
  match type of Hc with
  | (if ?c then _ else _) = true => destruct c eqn:Hcorner
  end.
  - rewrite !orb_true_iff in Hcorner.
    destruct Hcorner as [H|[H|[H|[H|H]]]]; try discriminate H.
    + apply (Both _ (pointInTriangle_inBox _ _ _ _ _ _ _ _ H T0 T1 T2) C0).
    + apply (Both _ (pointInTriangle_inBox _ _ _ _ _ _ _ _ H T0 T1 T2) C1).
    + apply (Both _ (pointInTriangle_inBox _ _ _ _ _ _ _ _ H T0 T1 T2) C2).
    + apply (Both _ (pointInTriangle_inBox _ _ _ _ _ _ _ _ H T0 T1 T2) C3).
  - match type of Hc with
    | (if ?c then _ else _) = true => destruct c eqn:Hvertex
    end.
    + rewrite !orb_true_iff in Hvertex.
      destruct Hvertex as [H|[H|[H|H]]]; try discriminate H;
        cbn [Point.x Point.y] in H; qprop.
      * apply (Both _ T0). unfold px, inBox. cbn [Point.x Point.y]. repeat split; assumption.
      * apply (Both _ T1). unfold px, inBox. cbn [Point.x Point.y]. repeat split; assumption.
      * apply (Both _ T2). unfold px, inBox. cbn [Point.x Point.y]. repeat split; assumption.
    + rewrite !orb_true_iff in Hc.
      repeat match goal with
        | H : _ \/ _ |- _ => destruct H as [H|H]
        end;
        try discriminate Hc;
        first
          [ apply (Cross _ _ _ _ T0 T1 C0 C1 Hc)
          | apply (Cross _ _ _ _ T0 T1 C1 C3 Hc)
          | apply (Cross _ _ _ _ T0 T1 C3 C2 Hc)
          | apply (Cross _ _ _ _ T0 T1 C2 C0 Hc)
          | apply (Cross _ _ _ _ T1 T2 C0 C1 Hc)
          | apply (Cross _ _ _ _ T1 T2 C1 C3 Hc)
          | apply (Cross _ _ _ _ T1 T2 C3 C2 Hc)
          | apply (Cross _ _ _ _ T1 T2 C2 C0 Hc)
          | apply (Cross _ _ _ _ T2 T0 C0 C1 Hc)
          | apply (Cross _ _ _ _ T2 T0 C1 C3 Hc)
          | apply (Cross _ _ _ _ T2 T0 C3 C2 Hc)
          | apply (Cross _ _ _ _ T2 T0 C2 C0 Hc) ].
Qed.

Lemma checkSpikeCollision_within_bounding_box_witness :
  checkSpikeCollision spikeSession (newSpike 110 520) = true
  /\ boxesTouch spikeSession (newSpike 110 520).
Proof.
  assert (H : checkSpikeCollision spikeSession (newSpike 110 520) = true)
    by (vm_compute; reflexivity).
  split; [exact H|].
  apply (checkSpikeCollision_within_bounding_box spikeSession (newSpike 110 520));
    try exact H; cbn; unfold Qle; cbn; lia.
Defined.

(** ** Particles *)

Lemma updateParticles_loop_spec (visited : list Particle.t) :
  forall done : list Particle.t,
    updateParticles_loop (List.length visited) (visited ++ done)
    = filter (fun p => negb (particleDead p)) (map movedParticle visited) ++ done.
Proof.
  induction visited as [|p l IH] using rev_ind; intro done.
  - reflexivity.
  - rewrite length_app, Nat.add_comm. cbn [List.length Nat.add].
    rewrite <- app_assoc. cbn [app updateParticles_loop].
    rewrite nth_error_middle, splice1_middle, replaceAt_middle.
    rewrite map_app, filter_app. cbn [map filter].
    fold (movedParticle p). fold (particleDead (movedParticle p)).
    destruct (particleDead (movedParticle p)); cbn [negb].
    + rewrite IH. rewrite app_nil_r. reflexivity.
    + rewrite IH. rewrite <- app_assoc. reflexivity.
Qed.

Lemma updateParticles_particles (g : Game) :
  particles (updateParticles g)
  = filter (fun p => negb (particleDead p)) (map movedParticle (particles g)).
Proof.
  unfold updateParticles. cbn [particles set_particles].
  pose proof (updateParticles_loop_spec (particles g) []) as H.
  rewrite !app_nil_r in H. exact H.
Qed.

(** X4.  One call of [updateParticles] keeps, in their order, the particles
    whose life is still positive after the decay, each moved by its
    velocity; it removes the others, never adds one, and touches nothing
    else of the state. *)
Theorem updateParticles_spec :
  forall g : Game,
    particles (updateParticles g)
    = filter (fun p => negb (particleDead p)) (map movedParticle (particles g))
    /\ (List.length (particles (updateParticles g)) <= List.length (particles g))%nat
    /\ updateParticles g = set_particles g (particles (updateParticles g)).
Proof.
  intro g.
  pose proof (updateParticles_particles g) as E.
  split; [exact E|]. split.
  - rewrite E. etransitivity; [apply filter_length_le|]. rewrite length_map. lia.
  - reflexivity.
Qed.

Lemma iter_movedParticle_life (n : nat) (p : Particle.t) :
  Particle.decay (Nat.iter n movedParticle p) = Particle.decay p
  /\ Particle.life (Nat.iter n movedParticle p)
     == Particle.life p - inject_Z (Z.of_nat n) * Particle.decay p.
Proof.
  induction n as [|n [IHd IHl]].
  - cbn. split; [reflexivity|]. ring.
  - set (q := Nat.iter n movedParticle p) in *.
    change (Nat.iter (S n) movedParticle p) with (movedParticle q).
    split; [exact IHd|].
    change (Particle.life (movedParticle q)) with (Particle.life q - Particle.decay q).
    rewrite Nat2Z.inj_succ. unfold Z.succ. rewrite inject_Z_plus.
    assert (E1 : inject_Z 1 == 1) by reflexivity.
    rewrite IHd. nra.
Qed.

Lemma survives_iff (n : nat) (p : Particle.t) :
  0 <= Particle.decay p ->
  survives (S n) p = (0 <? Particle.life p - inject_Z (Z.of_nat (S n)) * Particle.decay p).
Proof.
  intro Hd.
  assert (Mono : forall k, survives k p = true
                 \/ ~ 0 < Particle.life p - inject_Z (Z.of_nat k) * Particle.decay p).
  { induction k as [|k IH]; [left; reflexivity|].
    cbn [survives].
    destruct (iter_movedParticle_life (S k) p) as [_ Hl].
    destruct IH as [IH|IH].
    - rewrite IH. cbn [andb]. unfold particleDead.
      destruct (Particle.life (Nat.iter (S k) movedParticle p) <=? 0) eqn:E; qprop.
      + right. rewrite <- Hl. lra.
      + left. reflexivity.
    - right. intro H. apply IH.
      rewrite Nat2Z.inj_succ in H. unfold Z.succ in H. rewrite inject_Z_plus in H.
      assert (inject_Z 1 == 1) by reflexivity. nra. }
  cbn [survives].
  destruct (iter_movedParticle_life (S n) p) as [_ Hl].
  unfold particleDead.
  destruct (Mono n) as [Hs|Hs].
  - rewrite Hs. cbn [andb].
    destruct (Particle.life (Nat.iter (S n) movedParticle p) <=? 0) eqn:E;
      destruct (0 <? Particle.life p - inject_Z (Z.of_nat (S n)) * Particle.decay p)
        eqn:F; qprop; try reflexivity; exfalso; rewrite Hl in E; lra.
  - destruct (0 <? Particle.life p - inject_Z (Z.of_nat (S n)) * Particle.decay p)
      eqn:F; qprop.
    + exfalso. apply Hs.
      rewrite Nat2Z.inj_succ in F. unfold Z.succ in F. rewrite inject_Z_plus in F.
      assert (inject_Z 1 == 1) by reflexivity. nra.
    + destruct (survives n p); cbn [andb]; [|reflexivity].
      destruct (Particle.life (Nat.iter (S n) movedParticle p) <=? 0) eqn:E; qprop;
        [reflexivity|]. exfalso. rewrite Hl in E. lra.
Qed.

Lemma filter_map_swap {A B : Type} (f : A -> B) (q : B -> bool) (l : list A) :
  filter q (map f l) = map f (filter (fun a => q (f a)) l).
Proof.
  induction l as [|a l IH]; [reflexivity|].
  cbn [map filter]. destruct (q (f a)); cbn [map]; rewrite IH; reflexivity.
Qed.

Lemma filter_filter {A : Type} (q r : A -> bool) (l : list A) :
  filter q (filter r l) = filter (fun a => r a && q a) l.
Proof.
  induction l as [|a l IH]; [reflexivity|].
  cbn [filter]. destruct (r a); cbn [filter andb]; [destruct (q a)|];
    rewrite IH; reflexivity.
Qed.

Lemma iter_updateParticles (n : nat) (g : Game) :
  particles (Nat.iter n updateParticles g)
  = map (Nat.iter n movedParticle) (filter (survives n) (particles g)).
Proof.
  induction n as [|n IH].
  - cbn. induction (particles g) as [|p l IHl]; [reflexivity|].
    cbn. f_equal. exact IHl.
  - change (Nat.iter (S n) updateParticles g)
      with (updateParticles (Nat.iter n updateParticles g)).
    rewrite (updateParticles_particles (Nat.iter n updateParticles g)), IH.
    rewrite map_map, filter_map_swap, filter_filter. reflexivity.
Qed.

(** X5.  After [n >= 1] calls of [updateParticles], with no decay
    negative, the particles left are, in their order, those with
    [life - n * decay > 0], each moved [n] times: a particle disappears for
    good at the first call that brings its life to 0 or below. *)
Theorem particles_after_updates :
  forall (g : Game) (n : nat),
    Forall (fun p => 0 <= Particle.decay p) (particles g) ->
    particles (Nat.iter (S n) updateParticles g)
    = map (Nat.iter (S n) movedParticle)
        (filter
           (fun p =>
              0 <? Particle.life p - inject_Z (Z.of_nat (S n)) * Particle.decay p)
           (particles g)).
Proof.
  intros g n Hd. rewrite iter_updateParticles. f_equal.
  apply filter_ext_in. intros p Hin.
  rewrite Forall_forall in Hd. apply survives_iff. apply Hd. exact Hin.
Qed.

Lemma particles_after_updates_witness :
  Forall (fun p => 0 <= Particle.decay p) (particles sparkSession)
  /\ List.length (particles (Nat.iter 49 updateParticles sparkSession)) = 1%nat
  /\ particles (Nat.iter 50 updateParticles sparkSession) = [].
Proof.
  assert (H : Forall (fun p => 0 <= Particle.decay p) (particles sparkSession)).
  { repeat constructor. cbn. unfold Qle. cbn. lia. }
  split; [exact H|]. split.
  - rewrite (particles_after_updates sparkSession 48 H). reflexivity.
  - rewrite (particles_after_updates sparkSession 49 H). reflexivity.
Defined.

Section NewParticles.

Variable random : nat -> Q.

Lemma addParticles_loop_spec (n : nat) (x y : Q) (color : string) :
  forall g : Game,
    exists new : list Particle.t,
      addParticles_loop random n g x y color
      = set_randomCalls (set_particles g (particles g ++ new))
          (randomCalls g + 3 * n)
      /\ List.length new = n
      /\ Forall (freshParticle x y color) new
      /\ (randomInRange random ->
          Forall
            (fun p =>
               -5 <= Particle.vx p /\ Particle.vx p < 5
               /\ -5 <= Particle.vy p /\ Particle.vy p < 5
               /\ 2 <= Particle.size p /\ Particle.size p < 6)
            new).
Proof.
  induction n as [|n IH]; intro g.
  - exists []. cbn [addParticles_loop]. rewrite app_nil_r, Nat.mul_0_r, Nat.add_0_r.
    split; [destruct g; reflexivity|]. repeat split; constructor.
  - cbn [addParticles_loop nextRandom].
    match goal with
    | |- context [addParticles_loop random n ?g1 x y color] =>
        destruct (IH g1) as (new & E & Hlen & Hfresh & Hrange); rewrite E
    end.
    cbn [particles randomCalls set_particles set_randomCalls].
    match goal with
    | |- context [(particles g ++ [?p0]) ++ new] => exists (p0 :: new)
    end.
    split; [|split; [|split]].
    + rewrite <- app_assoc. cbn [app].
      replace (S (S (S (randomCalls g))) + 3 * n)%nat
        with (randomCalls g + 3 * S n)%nat by lia.
      reflexivity.
    + cbn [List.length]. rewrite Hlen. reflexivity.
    + constructor; [|exact Hfresh]. repeat split.
    + intro Hr. constructor; [|exact (Hrange Hr)].
      cbn [Particle.vx Particle.vy Particle.size].
      destruct (Hr (randomCalls g)) as [? ?].
      destruct (Hr (S (randomCalls g))) as [? ?].
      destruct (Hr (S (S (randomCalls g)))) as [? ?].
      repeat split; lra.
Qed.

End NewParticles.



Lemma alwaysZero_inRange : randomInRange alwaysZero.
Proof. intro n. unfold alwaysZero, Qle, Qlt. cbn. lia. Defined.


(** ** Jumping and standing *)

(** X7.  [jump()] does nothing to an airborne player.  For a grounded
    player it sets the vertical velocity to the jump force, clears the
    grounded flag, leaves the position alone and appends 8 particles.  A
    second [jump()] right after it does nothing: there is no double
    jump. *)
Theorem jump_spec :
  forall (random : nat -> Q) (g : Game),
    (Player.isGrounded (player g) = false -> jump random g = g)
    /\ (Player.isGrounded (player g) = true ->
        exists new : list Particle.t,
          List.length new = 8%nat
          /\ jump random g
             = set_randomCalls
                 (set_particles
                    (set_player g
                       (Player.set_isGrounded
                          (Player.set_velocityY (player g) (jumpForce g)) false))
                    (particles g ++ new))
                 (randomCalls g + 24))
    /\ jump random (jump random g) = jump random g.
Proof.
  intros random g.
  assert (Hair : forall g0, Player.isGrounded (player g0) = false -> jump random g0 = g0).
  { intros g0 H. unfold jump. rewrite H. reflexivity. }
  assert (Hground : Player.isGrounded (player g) = true ->
            exists new : list Particle.t,
              List.length new = 8%nat
              /\ jump random g
                 = set_randomCalls
                     (set_particles
                        (set_player g
                           (Player.set_isGrounded
                              (Player.set_velocityY (player g) (jumpForce g)) false))
                        (particles g ++ new))
                     (randomCalls g + 24)).
  { intro H. unfold jump, addParticles. rewrite H.
    match goal with
    | |- context [addParticles_loop random 8 ?g1 ?x ?y ?c] =>
        destruct (addParticles_loop_spec random 8 x y c g1) as (new & E & Hlen & _);
        rewrite E
    end.
    exists new. split; [exact Hlen|]. reflexivity. }
  split; [apply Hair|]. split; [exact Hground|].
  destruct (Player.isGrounded (player g)) eqn:Hg.
  - destruct (Hground eq_refl) as (new & _ & E). rewrite E.
    apply Hair. reflexivity.
  - rewrite (Hair g Hg). apply Hair. exact Hg.
Qed.

(** A jump from the ground, run: the velocity becomes -15. *)
Example jump_run :
  let g := set_player groundedSession (Player.mk 100 0 40 40 0 true 0 "#00ff88") in
  Player.velocityY (player (jump alwaysHalf g)) = -15
  /\ Player.isGrounded (player (jump alwaysHalf g)) = false
  /\ List.length (particles (jump alwaysHalf g)) = 8%nat.
Proof. repeat split. Qed.

Lemma updatePlayer_isGrounded (g : Game) :
  Player.y (player (updatePlayer g)) + Player.height (player (updatePlayer g))
  >= gameHeight g - 50 ->
  Player.isGrounded (player (updatePlayer g)) = true.
Proof.
  unfold updatePlayer. cbn [player set_player Player.isGrounded Player.set_isGrounded
    Player.set_rotation Player.y Player.height].
  match goal with
  | |- context [if ?c then _ else _] => destruct c eqn:Hclamp
  end; intro H; unfold checkIfGrounded;
    cbn [player set_player gameHeight Player.y Player.height Player.set_y
           Player.set_velocityY] in *.
  - match goal with
    | |- (if ?c then _ else _) = true => destruct c eqn:E; [reflexivity|]
    end.
    qprop. exfalso. lra.
  - match goal with
    | |- (if ?c then _ else _) = true => destruct c eqn:E; [reflexivity|]
    end.
    qprop. exfalso. lra.
Qed.

(** X8.  A player at rest on the ground line stays there: when the bottom
    edge is on the line, the vertical velocity is 0 and gravity is not
    negative, [updatePlayer] leaves the bottom edge on the line, the
    velocity at 0 and sets the grounded flag. *)
Theorem standing_on_ground_is_stable :
  forall g : Game,
    Player.y (player g) + Player.height (player g) == gameHeight g - 50 ->
    Player.velocityY (player g) == 0 ->
    0 <= gravity g ->
    let p' := player (updatePlayer g) in
    Player.y p' + Player.height p' == gameHeight g - 50
    /\ Player.velocityY p' == 0
    /\ Player.isGrounded p' = true.
Proof.
  intros g Hb Hv Hg p'.
  destruct (updatePlayer_clamp g) as (Hh & Hclamp & Hfree).
  fold p' in Hh, Hclamp, Hfree.
  assert (Hpos : Player.y p' + Player.height p' == gameHeight g - 50
                 /\ Player.velocityY p' == 0).
  { destruct (Qlt_le_dec (gameHeight g - 50)
                (Player.y (player g) + (Player.velocityY (player g) + gravity g)
                 + Player.height (player g))) as [Hgt|Hle].
    - destruct (Hclamp Hgt) as [Hy Hvy]. rewrite Hy, Hvy, Hh. split; [lra|reflexivity].
    - destruct (Hfree Hle) as [Hy Hvy]. rewrite Hy, Hvy, Hh. split; lra. }
  split; [exact (proj1 Hpos)|]. split; [exact (proj2 Hpos)|].
  apply updatePlayer_isGrounded. fold p'. destruct Hpos as [Hp _]. rewrite Hp.
  apply Qle_refl.
Qed.

Lemma standing_on_ground_is_stable_witness :
  Player.isGrounded (player (updatePlayer groundedSession)) = true.
Proof.
  refine (proj2 (proj2 (standing_on_ground_is_stable groundedSession _ _ _)));
    vm_compute; try reflexivity; discriminate.
Defined.

Lemma Qabs_lt_iff (a b : Q) : Qabs a < b <-> - b < a /\ a < b.
Proof.
  split.
  - intro H. pose proof (Qle_Qabs a). pose proof (Qle_Qabs (- a)) as Hn.
    rewrite Qabs_opp in Hn. split; lra.
  - intros [H1 H2]. apply Qabs_case; intro; lra.
Qed.

(** X9.  [checkIfGrounded] answers true exactly when the bottom edge is
    on or below the ground line, or a block carries the player, or a
    platform does; spikes never count as a support. *)
Theorem checkIfGrounded_spec :
  forall g : Game,
    (checkIfGrounded g = true
     <-> gameHeight g - 50 <= Player.y (player g) + Player.height (player g)
         \/ Exists
              (fun o =>
                 Obstacle.type o = block
                 /\ carries g (Obstacle.x o) (Obstacle.y o) (Obstacle.width o))
              (obstacles g)
         \/ Exists
              (fun p => carries g (Platform.x p) (Platform.y p) (Platform.width p))
              (platforms g))
    /\ checkIfGrounded (set_obstacles g (filter isBlock (obstacles g)))
       = checkIfGrounded g.
Proof.
  intro g. split.
  - unfold checkIfGrounded.
    destruct (gameHeight g - 50 <=? Player.y (player g) + Player.height (player g))
      eqn:Eground; qprop.
    + split; [intros _; left; exact Eground | reflexivity].
    + match goal with
      | |- (if existsb ?f ?l then _ else _) = true <-> _ =>
          destruct (existsb f l) eqn:Eblock
      end.
      * split; [intros _|reflexivity]. right. left.
        apply existsb_exists in Eblock. destruct Eblock as (o & Hin & Ho).
        apply Exists_exists. exists o. split; [exact Hin|].
        destruct (Obstacle.type o); [discriminate Ho|]. qprop.
        split; [reflexivity|]. unfold carries. repeat split; assumption.
      * rewrite existsb_exists. split.
        -- intros (p & Hin & Hp). right. right. apply Exists_exists.
           exists p. split; [exact Hin|]. qprop. unfold carries.
           repeat split; assumption.
        -- intros [H|[H|H]].
           ++ exfalso. lra.
           ++ exfalso. apply Exists_exists in H. destruct H as (o & Hin & Hty & Hc).
              assert (Ht : existsb
                (fun obstacle =>
                   match Obstacle.type obstacle with
                   | spike => false
                   | block =>
                       (Player.x (player g)
                        <? Obstacle.x obstacle - cameraX g + Obstacle.width obstacle)
                       && (Obstacle.x obstacle - cameraX g
                           <? Player.x (player g) + Player.width (player g))
                       && (Qabs (Player.y (player g) + Player.height (player g)
                                 - Obstacle.y obstacle) <? 5)
                   end) (obstacles g) = true).
              { apply existsb_exists. exists o. split; [exact Hin|].
                rewrite Hty. destruct Hc as (H1 & H2 & H3).
                rewrite !andb_true_iff, !Qlt_bool_iff. repeat split; assumption. }
              rewrite Ht in Eblock. discriminate Eblock.
           ++ apply Exists_exists in H. destruct H as (p & Hin & H1 & H2 & H3).
              exists p. split; [exact Hin|].
              rewrite !andb_true_iff, !Qlt_bool_iff. repeat split; assumption.
  - unfold checkIfGrounded. cbn [player set_obstacles gameHeight obstacles platforms cameraX].
    destruct (gameHeight g - 50 <=? Player.y (player g) + Player.height (player g));
      [reflexivity|].
    match goal with
    | |- (if existsb ?f (filter isBlock ?l) then _ else _) = _ =>
        assert (E : existsb f (filter isBlock l) = existsb f l)
    end.
    { induction (obstacles g) as [|o l IH]; [reflexivity|].
      cbn [filter existsb]. unfold isBlock at 1.
      destruct (Obstacle.type o) eqn:Hty; cbn [existsb]; rewrite ?Hty, IH; reflexivity. }
    rewrite E. reflexivity.
Qed.

(** ** Spawn planner: when, what and where *)

(** An index drawn as [Math.floor(Math.random() * a.length)] is inside a
    non-empty array. *)
Lemma arrayGet_random {A : Type} (a : list A) (r : Q) :
  a <> [] -> 0 <= r -> r < 1 ->
  arrayGet a (Qfloor (r * inject_Z (Z.of_nat (List.length a)))) <> None.
Proof.
  intros Hne H0 H1. unfold arrayGet.
  remember (Z.of_nat (List.length a)) as n eqn:En.
  assert (Hn : (0 < n)%Z).
  { subst n. destruct a as [|x a]; [contradiction|]. cbn [List.length]. lia. }
  assert (Hnq : 0 < inject_Z n) by (rewrite Zlt_Qlt in Hn; exact Hn).
  assert (Hlo : (0 <= Qfloor (r * inject_Z n))%Z).
  { change 0%Z with (Qfloor 0). apply Qfloor_resp_le.
    apply Qmult_le_0_compat; [exact H0|apply Qlt_le_weak; exact Hnq]. }
  assert (Hhi : (Qfloor (r * inject_Z n) < n)%Z).
  { rewrite Zlt_Qlt. pose proof (Qfloor_le (r * inject_Z n)) as Hf.
    pose proof (Qmult_lt_compat_r r 1 (inject_Z n) Hnq H1) as Hm.
    rewrite Qmult_1_l in Hm. eapply Qle_lt_trans; [exact Hf|exact Hm]. }
  generalize dependent (Qfloor (r * inject_Z n)). intros i Hlo Hhi.
  destruct (i <? 0)%Z eqn:E; [apply Z.ltb_lt in E; lia|].
  apply nth_error_Some. lia.
Qed.

Lemma arrayGet_In {A : Type} (a : list A) (i : Z) (x : A) :
  arrayGet a i = Some x -> In x a.
Proof.
  unfold arrayGet. destruct (i <? 0)%Z; [discriminate|]. apply nth_error_In.
Qed.

Lemma getSpikePositions_head (g : Game) :
  exists rest, getSpikePositions g = (gameHeight g - 80) :: rest.
Proof. unfold getSpikePositions. cbn [app]. eexists. reflexivity. Qed.

Section Planner.

Variable random : nat -> Q.

(** The planner spawns when its first draw is below 0.03. *)
Lemma generateObstacles_spawns (g : Game) :
  randomInRange random ->
  (random (randomCalls g) <? 0.03) = true ->
  (List.length (obstacles (generateObstacles random g))
   + List.length (platforms (generateObstacles random g))
   > List.length (obstacles g) + List.length (platforms g))%nat.
Proof.
  intros Hr Hdraw.
  unfold generateObstacles, nextRandom. rewrite Hdraw.
  cbn [randomCalls set_randomCalls].
  match goal with
  | |- context [arrayGet ?a (Qfloor (?r * _))] =>
      pose proof (arrayGet_random a r) as Hty;
      destruct (arrayGet a (Qfloor (r * inject_Z (Z.of_nat (List.length a)))))
        as [[| |]|] eqn:Ety
  end.
  - destruct (getSpikePositions_head
                (set_randomCalls (set_randomCalls g (S (randomCalls g)))
                   (S (S (randomCalls g))))) as (rest & Epos).
    match goal with
    | |- context [arrayGet ?a (Qfloor (?r * _))] =>
        pose proof (arrayGet_random a r) as Hpos;
        destruct (arrayGet a (Qfloor (r * inject_Z (Z.of_nat (List.length a)))))
          as [y|] eqn:Ey
    end.
    + repeat match goal with
        | |- context [if ?c then _ else _] => destruct c
        end;
        unfold pushObstacle;
        cbn [obstacles platforms set_obstacles set_randomCalls];
        rewrite !length_app; cbn [List.length]; lia.
    + exfalso. apply Hpos; try apply Hr; [|reflexivity].
      rewrite Epos. discriminate.
  - match goal with
    | |- context [arrayGet ?a (Qfloor (?r * _))] =>
        pose proof (arrayGet_random a r) as Hh;
        destruct (arrayGet a (Qfloor (r * inject_Z (Z.of_nat (List.length a)))))
          as [h|] eqn:Eh
    end.
    + unfold pushObstacle.
      cbn [obstacles platforms set_obstacles set_randomCalls].
      rewrite !length_app; cbn [List.length]; lia.
    + exfalso. apply Hh; try apply Hr; [discriminate|reflexivity].
  - match goal with
    | |- context [arrayGet ?a (Qfloor (?r * _))] =>
        pose proof (arrayGet_random a r) as Hh;
        destruct (arrayGet a (Qfloor (r * inject_Z (Z.of_nat (List.length a)))))
          as [h|] eqn:Eh
    end.
    + unfold pushPlatform.
      cbn [obstacles platforms set_platforms set_randomCalls].
      rewrite !length_app; cbn [List.length]; lia.
    + exfalso. apply Hh; try apply Hr; [discriminate|reflexivity].
  - exfalso. apply Hty; try apply Hr; [discriminate|reflexivity].
Qed.

Lemma generateObstacles_idle (g : Game) :
  (random (randomCalls g) <? 0.03) = false ->
  generateObstacles random g = set_randomCalls g (S (randomCalls g)).
Proof.
  intro Hdraw. unfold generateObstacles, nextRandom. rewrite Hdraw. reflexivity.
Qed.

End Planner.

(** X10.  With every draw in the range of [Math.random()], the planner
    emits something on a tick exactly when the first draw of the tick is
    below 0.03: no index it draws is ever outside its array.  Otherwise it
    consumes that one draw and changes nothing else. *)
Theorem spawn_iff_first_draw_below_threshold :
  forall (random : nat -> Q) (g : Game),
    randomInRange random ->
    (random (randomCalls g) < 0.03
     <-> spawnedObstacles random g <> [] \/ spawnedPlatforms random g <> [])
    /\ (0.03 <= random (randomCalls g) ->
        generateObstacles random g = set_randomCalls g (S (randomCalls g))).
Proof.
  intros random g Hr.
  pose proof (spawnedObstacles_app random g) as Eo.
  pose proof (spawnedPlatforms_app random g) as Ep.
  split; [split|].
  - intro Hlt. apply Qlt_bool_iff in Hlt.
    pose proof (generateObstacles_spawns random g Hr Hlt) as Hgrow.
    rewrite Eo, Ep, !length_app in Hgrow.
    destruct (spawnedObstacles random g); [|left; discriminate].
    destruct (spawnedPlatforms random g); [|right; discriminate].
    cbn [List.length] in Hgrow. lia.
  - intro Hsp.
    destruct (random (randomCalls g) <? 0.03) eqn:E; qprop; [exact E|].
    exfalso. apply Qlt_bool_false_iff in E.
    pose proof (generateObstacles_idle random g E) as Hidle.
    unfold spawnedObstacles, spawnedPlatforms in Hsp. rewrite Hidle in Hsp.
    cbn [obstacles platforms set_randomCalls] in Hsp.
    rewrite !skipn_all in Hsp. destruct Hsp as [H|H]; apply H; reflexivity.
  - intro Hge. apply generateObstacles_idle. apply Qlt_bool_false_iff. exact Hge.
Qed.

Lemma spawn_iff_first_draw_below_threshold_witness :
  randomInRange alwaysZero
  /\ (spawnedObstacles alwaysZero freshSession <> []
      \/ spawnedPlatforms alwaysZero freshSession <> []).
Proof.
  split; [exact alwaysZero_inRange|].
  apply (proj1 (proj1
    (spawn_iff_first_draw_below_threshold alwaysZero freshSession alwaysZero_inRange))).
  unfold alwaysZero, Qlt. cbn. lia.
Defined.

(** X11.  [getSpikePositions] offers the ground level first, then 40 above
    the top of each platform, and then of each block, whose screen [x] is
    more than 100 beyond the player's: a height is offered exactly when it
    is one of these. *)
Theorem getSpikePositions_spec :
  forall (g : Game) (y : Q),
    (exists rest, getSpikePositions g = (gameHeight g - 80) :: rest)
    /\ (In y (getSpikePositions g)
        <-> y = gameHeight g - 80
            \/ (exists p,
                  In p (platforms g)
                  /\ Player.x (player g) + 100 < Platform.x p - cameraX g
                  /\ y = Platform.y p - 40)
            \/ (exists o,
                  In o (obstacles g)
                  /\ Obstacle.type o = block
                  /\ Player.x (player g) + 100 < Obstacle.x o - cameraX g
                  /\ y = Obstacle.y o - 40)).
Proof.
  intros g y. split; [apply getSpikePositions_head|].
  unfold getSpikePositions. cbn [app].
  cbn [In]. rewrite in_app_iff, !in_map_iff.
  split.
  - intros [H|[(p & Hy & Hin)|(o & Hy & Hin)]].
    + left. symmetry. exact H.
    + right. left. apply filter_In in Hin. destruct Hin as [Hin Hahead]. qprop.
      exists p. repeat split; try assumption. symmetry. exact Hy.
    + right. right. apply filter_In in Hin. destruct Hin as [Hin Hahead].
      destruct (Obstacle.type o) eqn:Hty; [discriminate Hahead|]. qprop.
      exists o. repeat split; try assumption. symmetry. exact Hy.
  - intros [H|[(p & Hin & Hahead & Hy)|(o & Hin & Hty & Hahead & Hy)]].
    + left. symmetry. exact H.
    + right. left. exists p. split; [symmetry; exact Hy|].
      apply filter_In. split; [exact Hin|]. apply Qlt_bool_iff. exact Hahead.
    + right. right. exists o. split; [symmetry; exact Hy|].
      apply filter_In. split; [exact Hin|]. rewrite Hty.
      apply Qlt_bool_iff. exact Hahead.
Qed.

(** X12.  What the planner emits has a fixed footprint.  A spike is 40 by
    40 and stands at one of the heights [getSpikePositions] offers; a block
    is 40 wide and 60 high with its top 120, 150 or 180 above the bottom of
    the viewport; a platform is 20 thick, 80 or 120 wide, with its top 150,
    200 or 250 above the bottom of the viewport. *)
Theorem spawned_shapes :
  forall (random : nat -> Q) (g : Game),
    Forall
      (fun o =>
         match Obstacle.type o with
         | spike =>
             Obstacle.width o = 40 /\ Obstacle.height o = 40
             /\ In (Obstacle.y o) (getSpikePositions g)
         | block =>
             Obstacle.width o = 40 /\ Obstacle.height o = 60
             /\ exists h, In h [120; 150; 180] /\ Obstacle.y o = gameHeight g - h
         end)
      (spawnedObstacles random g)
    /\ Forall
         (fun p =>
            Platform.height p = 20
            /\ (Platform.width p = 80 \/ Platform.width p = 120)
            /\ exists h, In h [150; 200; 250] /\ Platform.y p = gameHeight g - h)
         (spawnedPlatforms random g).
Proof.
  intros random g.
  unfold spawnedObstacles, spawnedPlatforms, generateObstacles, nextRandom,
    pushObstacle, pushPlatform.
  repeat match goal with
    | |- context [if ?c then _ else _] => destruct c
    | |- context [match arrayGet ?a ?i with _ => _ end] =>
        destruct (arrayGet a i) eqn:?
    | |- context [match ?f with f_spike => _ | _ => _ end] => destruct f
    end;
    cbn [obstacles platforms gameWidth gameHeight cameraX set_randomCalls
         set_obstacles set_platforms];
    rewrite <- ?app_assoc; cbn [app];
    rewrite ?skipn_length_app, ?skipn_all;
    unfold newSpike;
    (split; repeat (apply Forall_cons || apply Forall_nil);
     cbn [Obstacle.type Obstacle.y Obstacle.width Obstacle.height
          Platform.y Platform.width Platform.height];
     repeat split;
     try (left; reflexivity); try (right; reflexivity);
     try (eapply arrayGet_In; eassumption);
     try (eexists; split; [eapply arrayGet_In; eassumption|reflexivity])).
Qed.

(** The planner run on a state with a platform ahead: with these draws the
    spike is perched on the platform, 40 above its top. *)
Example perched_spike_run :
  let g := set_platforms freshSession [Platform.mk 400 450 120 20 "#00aaff"] in
  let draws := fun n : nat => if Nat.eqb n 2 then 0.5 else 0 in
  getSpikePositions g = [600 - 80; 450 - 40]
  /\ spawnedObstacles draws g = [newSpike (800 + 0) (450 - 40)].
Proof. split; reflexivity. Qed.

(** ** Collision engine: platforms, and what the pass does to the pose *)

Section Platforms.

Variable random : nat -> Q.

Lemma platformLanding_iff (g : Game) (p : Platform.t) :
  platformLanding g p = true <-> platformLandingCondition g p.
Proof.
  unfold platformLanding, platformLandingCondition.
  rewrite !andb_true_iff, !Qlt_bool_iff, !Qle_bool_iff. tauto.
Qed.

Lemma checkPlatforms_gameState (pls : list Platform.t) :
  forall g, gameState (checkPlatforms random g pls) = gameState g.
Proof.
  intro g. destruct (checkPlatforms_shape random pls g) as (y & vy & ps & k & E).
  rewrite E. reflexivity.
Qed.

End Platforms.

(** X13.  A platform is only ever landed on.  When the landing condition
    holds, the platform step puts the player's bottom edge exactly on the
    platform's top and zeroes the vertical velocity; when it fails, the step
    changes nothing, whatever the overlap.  The platform loop never changes
    the phase, and a collision pass over a state without obstacles never
    ends the run. *)
Theorem platforms_are_never_lethal :
  forall (random : nat -> Q) (g : Game) (p : Platform.t),
    let g' := checkPlatform random g p in
    (platformLandingCondition g p ->
     Player.y (player g') + Player.height (player g') == Platform.y p
     /\ Player.velocityY (player g') = 0)
    /\ (~ platformLandingCondition g p -> g' = g)
    /\ (forall pls, gameState (checkPlatforms random g pls) = gameState g)
    /\ (obstacles g = [] -> gameState (checkCollisions random g) = gameState g).
Proof.
  intros random g p g'. subst g'. unfold checkPlatform.
  split; [|split; [|split]].
  - intro L. rewrite (proj2 (platformLanding_iff g p) L).
    destruct (land_shape random g (Platform.y p) "#00aaff") as (ps & k & E).
    rewrite E. cbn. split; [lra|reflexivity].
  - intro NL. destruct (platformLanding g p) eqn:E; [|reflexivity].
    exfalso. apply NL. apply platformLanding_iff. exact E.
  - intro pls. apply checkPlatforms_gameState.
  - intro Hobs. unfold checkCollisions. rewrite Hobs. cbn [checkObstacles].
    apply checkPlatforms_gameState.
Qed.

Lemma platforms_are_never_lethal_witness :
  platformLandingCondition platformSession (Platform.mk 90 450 120 20 "#00aaff")
  /\ Player.y (player (checkCollisions alwaysHalf platformSession)) == 410
  /\ gameState (checkCollisions alwaysHalf platformSession) = playing.
Proof.
  assert (L : platformLandingCondition platformSession
                (Platform.mk 90 450 120 20 "#00aaff")).
  { unfold platformLandingCondition. cbn. unfold Qlt, Qle. cbn. lia. }
  split; [exact L|]. split.
  - pose proof (proj1 (proj1
      (platforms_are_never_lethal alwaysHalf platformSession
         (Platform.mk 90 450 120 20 "#00aaff")) L)) as H.
    change (checkCollisions alwaysHalf platformSession)
      with (checkPlatform alwaysHalf platformSession
              (Platform.mk 90 450 120 20 "#00aaff")).
    rewrite <- (Qplus_inj_r _ _ (Player.height
      (player (checkPlatform alwaysHalf platformSession
                 (Platform.mk 90 450 120 20 "#00aaff"))))).
    rewrite H. reflexivity.
  - exact (proj2 (proj2 (proj2
      (platforms_are_never_lethal alwaysHalf platformSession
         (Platform.mk 90 450 120 20 "#00aaff"))))
      eq_refl).
Defined.

Section Pose.

Variable random : nat -> Q.

Lemma lifted_refl (tops : list Q) (g : Game) : lifted tops g g.
Proof. unfold lifted. repeat split; try apply Qle_refl. left. split; reflexivity. Qed.

Lemma lifted_gameOver (tops : list Q) (g : Game) : lifted tops g (gameOver_ g).
Proof. unfold lifted. repeat split; try apply Qle_refl. left. split; reflexivity. Qed.

Lemma lifted_more (tops tops' : list Q) (g g' : Game) :
  incl tops tops' -> lifted tops g g' -> lifted tops' g g'.
Proof.
  intros Hi (Hx & Hw & Hh & Hy & Hp). unfold lifted. repeat split; try assumption.
  destruct Hp as [Hp|(Hv & top & Hin & Ht)]; [left; exact Hp|].
  right. split; [exact Hv|]. exists top. split; [apply Hi; exact Hin|exact Ht].
Qed.

Lemma lifted_trans (tops : list Q) (g1 g2 g3 : Game) :
  lifted tops g1 g2 -> lifted tops g2 g3 -> lifted tops g1 g3.
Proof.
  intros (Hx & Hw & Hh & Hy & Hp) (Hx' & Hw' & Hh' & Hy' & Hp').
  unfold lifted. repeat split; try congruence.
  - eapply Qle_trans; eassumption.
  - destruct Hp' as [[Ey Ev]|(Hv & top & Hin & Ht)].
    + destruct Hp as [[Ey0 Ev0]|(Hv0 & top & Hin & Ht)].
      * left. split; congruence.
      * right. split; [congruence|]. exists top. split; [exact Hin|congruence].
    + right. split; [exact Hv|]. exists top. split; [exact Hin|congruence].
Qed.

Lemma land_lifted (g : Game) (top : Q) (color : string) :
  top <= Player.y (player g) + Player.height (player g) ->
  lifted [top] g (land random g top color).
Proof.
  intro Htop. destruct (land_shape random g top color) as (ps & k & E).
  rewrite E. unfold lifted. cbn. repeat split; [lra|].
  right. split; [reflexivity|]. exists top. split; [left; reflexivity|reflexivity].
Qed.

Lemma checkObstacles_lifted (obs : list Obstacle.t) :
  forall g,
    lifted (map Obstacle.y (filter isBlock obs)) g (fst (checkObstacles random g obs)).
Proof.
  induction obs as [|o rest IH]; intro g; cbn [checkObstacles].
  - apply lifted_refl.
  - assert (Ho : lifted (map Obstacle.y (filter isBlock [o])) g
                   (fst (checkObstacle random g o))).
    { unfold checkObstacle. cbn [filter]. unfold isBlock.
      destruct (Obstacle.type o).
      - destruct (checkSpikeCollision g o); cbn [fst];
          [apply lifted_gameOver|apply lifted_refl].
      - destruct (blockLanding g o) eqn:El; cbn [fst].
        + unfold blockLanding in El. qprop. cbn [map]. apply land_lifted. assumption.
        + destruct (blockOverlap g o); cbn [fst];
            [apply lifted_gameOver|apply lifted_refl]. }
    assert (Hincl1 : incl (map Obstacle.y (filter isBlock [o]))
                       (map Obstacle.y (filter isBlock (o :: rest)))).
    { cbn [filter]. destruct (isBlock o); cbn [map].
      - intros a [Ha|[]]. left. exact Ha.
      - intros a []. }
    assert (Hincl2 : incl (map Obstacle.y (filter isBlock rest))
                       (map Obstacle.y (filter isBlock (o :: rest)))).
    { cbn [filter]. destruct (isBlock o); cbn [map].
      - intros a Ha. right. exact Ha.
      - intros a Ha. exact Ha. }
    destruct (checkObstacle random g o) as [g1 stop]. cbn [fst] in Ho.
    destruct stop; cbn [fst].
    + eapply lifted_more; [exact Hincl1|exact Ho].
    + eapply lifted_trans.
      * eapply lifted_more; [exact Hincl1|exact Ho].
      * eapply lifted_more; [exact Hincl2|apply IH].
Qed.

Lemma checkPlatforms_lifted (pls : list Platform.t) :
  forall g, lifted (map Platform.y pls) g (checkPlatforms random g pls).
Proof.
  induction pls as [|p rest IH]; intro g; cbn [checkPlatforms].
  - apply lifted_refl.
  - apply lifted_trans with (g2 := checkPlatform random g p).
    + eapply lifted_more with (tops := [Platform.y p]).
      * cbn [map]. intros a [Ha|[]]. left. exact Ha.
      * unfold checkPlatform. destruct (platformLanding g p) eqn:El.
        -- unfold platformLanding in El. qprop. apply land_lifted. assumption.
        -- apply lifted_refl.
    + eapply lifted_more; [|apply IH]. cbn [map]. intros a Ha. right. exact Ha.
Qed.

End Pose.

(** X14.  The collision pass never moves the player sideways or down.  At
    its end the pose is either untouched, or the vertical velocity is 0 and
    the player's bottom edge is on the top of a block or of a platform of
    the state. *)
Theorem collision_pass_only_lifts :
  forall (random : nat -> Q) (g : Game),
    let p := player g in
    let p' := player (checkCollisions random g) in
    Player.x p' = Player.x p
    /\ Player.width p' = Player.width p
    /\ Player.height p' = Player.height p
    /\ Player.y p' <= Player.y p
    /\ ((Player.y p' = Player.y p /\ Player.velocityY p' = Player.velocityY p)
        \/ (Player.velocityY p' = 0
            /\ exists top,
                 In top (surfaceTops g) /\ Player.y p' = top - Player.height p)).
Proof.
  intros random g. change (lifted (surfaceTops g) g (checkCollisions random g)).
  unfold checkCollisions, surfaceTops.
  pose proof (checkObstacles_lifted random (obstacles g) g) as Ho.
  destruct (checkObstacles_shape random (obstacles g) g) as (st & y & vy & ps & k & E).
  destruct (checkObstacles random g (obstacles g)) as [g1 stop]. cbn [fst] in Ho, E.
  destruct stop.
  - eapply lifted_more; [|exact Ho]. apply incl_appl, incl_refl.
  - eapply lifted_trans.
    + eapply lifted_more; [|exact Ho]. apply incl_appl, incl_refl.
    + eapply lifted_more; [|apply checkPlatforms_lifted].
      rewrite E. cbn [platforms repose set_randomCalls set_particles set_player
        set_gameState]. apply incl_appr, incl_refl.
Qed.

(** ** Autoplay controller: when it does jump *)

Section AutoplayDecisions.

Variable random : nat -> Q.

(** The state [autoJump] returns when it jumps. *)
Lemma issued_jump (g : Game) (now : Z) :
  Player.isGrounded (player g) = true ->
  let g' := set_lastAutoJumpTime (jump random g) now in
  Player.velocityY (player g') = jumpForce g
  /\ Player.isGrounded (player g') = false
  /\ Player.y (player g') = Player.y (player g)
  /\ lastAutoJumpTime g' = now.
Proof.
  intro Hg. cbv zeta. unfold jump. rewrite Hg.
  match goal with
  | |- context [addParticles random ?g1 ?x ?y ?c] =>
      destruct (addParticles_shape random g1 x y c) as (ps & k & E); rewrite E
  end.
  repeat split.
Qed.

Lemma existsb_false_Forall {A : Type} (f : A -> bool) (P : A -> Prop) (l : list A) :
  (forall a, f a = true -> ~ P a) -> Forall P l -> existsb f l = false.
Proof.
  intros Hf Hall. destruct (existsb f l) eqn:E; [|reflexivity].
  apply existsb_exists in E. destruct E as (a & Hin & Ha).
  rewrite Forall_forall in Hall. exfalso. exact (Hf a Ha (Hall a Hin)).
Qed.

End AutoplayDecisions.

(** X15.  A grounded player whose cooldown has elapsed jumps over a close
    spike: when some spike is ahead by more than 0 and less than 40, the
    autoplay controller calls [jump()], so that the vertical velocity
    becomes the jump force, and stamps the jump with the current time. *)
Theorem autoplay_jumps_over_close_spike :
  forall (random : nat -> Q) (g : Game) (now : Z) (o : Obstacle.t),
    Player.isGrounded (player g) = true ->
    (autoJumpCooldown g <= now - lastAutoJumpTime g)%Z ->
    In o (obstacles g) ->
    Obstacle.type o = spike ->
    0 < distanceAhead g o ->
    distanceAhead g o < 40 ->
    let g' := fst (autoJump random g now) in
    snd (autoJump random g now) = true
    /\ Player.velocityY (player g') = jumpForce g
    /\ Player.isGrounded (player g') = false
    /\ lastAutoJumpTime g' = now.
Proof.
  intros random g now o Hg Hcool Hin Hty Hd0 Hd1.
  unfold autoJump. rewrite Hg. cbn [negb].
  apply Z.ltb_ge in Hcool. rewrite Hcool.
  match goal with
  | |- context [if existsb ?f (obstacles g) then _ else _] =>
      assert (E : existsb f (obstacles g) = true)
  end.
  { apply existsb_exists. exists o. split; [exact Hin|]. rewrite Hty.
    unfold distanceAhead in Hd0, Hd1.
    rewrite andb_true_iff, !Qlt_bool_iff. split; assumption. }
  rewrite E. cbn [fst snd].
  destruct (issued_jump random g now Hg) as (Hv & Hgr & _ & Hl).
  split; [reflexivity|]. split; [exact Hv|]. split; [exact Hgr|exact Hl].
Qed.

Lemma autoplay_jumps_over_close_spike_witness :
  snd (autoJump alwaysHalf dangerSession 1000) = true
  /\ Player.velocityY (player (fst (autoJump alwaysHalf dangerSession 1000))) = -15.
Proof.
  pose proof (autoplay_jumps_over_close_spike alwaysHalf dangerSession 1000
                (newSpike 120 520)) as H.
  assert (H' := H eq_refl).
  clear H.
  assert (Hc : (autoJumpCooldown dangerSession <= 1000 - lastAutoJumpTime dangerSession)%Z)
    by (cbn; lia).
  assert (Hin : In (newSpike 120 520) (obstacles dangerSession))
    by (left; reflexivity).
  assert (H0 : 0 < distanceAhead dangerSession (newSpike 120 520))
    by (vm_compute; reflexivity).
  assert (H1 : distanceAhead dangerSession (newSpike 120 520) < 40)
    by (vm_compute; reflexivity).
  destruct (H' Hc Hin eq_refl H0 H1) as (Hj & Hv & _).
  split; [exact Hj|exact Hv].
Defined.

(** X16.  With nothing within 40 ahead, a grounded player whose cooldown
    has elapsed is made to jump exactly when it is at ground level
    ([y >= gameHeight - 100]): on open ground the controller jumps as often
    as the cooldown allows, and higher up it does not jump. *)
Theorem autoplay_with_nothing_ahead :
  forall (random : nat -> Q) (g : Game) (now : Z),
    Player.isGrounded (player g) = true ->
    (autoJumpCooldown g <= now - lastAutoJumpTime g)%Z ->
    Forall (fun o => ~ (0 < distanceAhead g o /\ distanceAhead g o < 40)) (obstacles g) ->
    snd (autoJump random g now) = (Player.y (player g) >=? gameHeight g - 100).
Proof.
  intros random g now Hg Hcool Hfar.
  unfold autoJump. rewrite Hg. cbn [negb].
  apply Z.ltb_ge in Hcool. rewrite Hcool.
  match goal with
  | |- context [if existsb ?f (obstacles g) then _ else _] =>
      assert (E1 : existsb f (obstacles g) = false)
  end.
  { apply (existsb_false_Forall _ (fun o => ~ (0 < distanceAhead g o
                                               /\ distanceAhead g o < 40)));
      [|exact Hfar].
    intros o Ho Hn. apply Hn. destruct (Obstacle.type o); [|discriminate Ho].
    apply andb_true_iff in Ho. rewrite !Qlt_bool_iff in Ho. exact Ho. }
  rewrite E1.
  match goal with
  | |- context [_ && existsb ?f (obstacles g)] =>
      assert (E2 : existsb f (obstacles g) = false)
  end.
  { apply (existsb_false_Forall _ (fun o => ~ (0 < distanceAhead g o
                                               /\ distanceAhead g o < 40)));
      [|exact Hfar].
    intros o Ho Hn. apply Hn. destruct (Obstacle.type o); [discriminate Ho|].
    rewrite !andb_true_iff, !Qlt_bool_iff in Ho. tauto. }
  rewrite E2, andb_false_r.
  match goal with
  | |- context [negb (existsb ?f (obstacles g))] =>
      assert (E3 : existsb f (obstacles g) = false)
  end.
  { apply (existsb_false_Forall _ (fun o => ~ (0 < distanceAhead g o
                                               /\ distanceAhead g o < 40)));
      [|exact Hfar].
    intros o Ho Hn. apply Hn.
    rewrite !andb_true_iff, !Qlt_bool_iff in Ho. unfold distanceAhead.
    destruct Ho as [H0 H1]. split; [exact H0|]. lra. }
  rewrite E3. cbn [negb].
  destruct (gameHeight g - 100 <=? Player.y (player g)); reflexivity.
Qed.

Lemma autoplay_with_nothing_ahead_witness :
  snd (autoJump alwaysHalf
         (set_player freshSession (Player.mk 100 510 40 40 0 true 0 "#00ff88")) 1000)
  = true.
Proof.
  refine (eq_trans
    (autoplay_with_nothing_ahead alwaysHalf
       (set_player freshSession (Player.mk 100 510 40 40 0 true 0 "#00ff88")) 1000
       eq_refl _ _) _).
  - cbn. lia.
  - constructor.
  - reflexivity.
Defined.

(** ** What every reachable state satisfies *)

Section Invariants.

Variable random : nat -> Q.

Lemma kept_refl (g : Game) : kept g g.
Proof. unfold kept. repeat split. exists 0%nat. lia. Qed.

Lemma kept_trans (g1 g2 g3 : Game) : kept g1 g2 -> kept g2 g3 -> kept g1 g3.
Proof.
  intros (Ha & Hs & Hc & Hx & Hw & Hh & k & Hk) (Ha' & Hs' & Hc' & Hx' & Hw' & Hh' & k' & Hk').
  unfold kept. repeat split; try congruence.
  exists (k + k')%nat. lia.
Qed.

Lemma kept_repose (g : Game) st y vy gr ps k : kept g (repose g st y vy gr ps k).
Proof.
  unfold kept. repeat split. exists 0%nat.
  change (score (repose g st y vy gr ps k)) with (score g). lia.
Qed.

Lemma updatePlayer_kept (g : Game) : kept g (updatePlayer g).
Proof.
  unfold kept. repeat split;
    try (unfold updatePlayer; cbn; destruct (_ <? _); reflexivity).
  exists 0%nat. change (score (updatePlayer g)) with (score g). lia.
Qed.

Lemma generateObstacles_kept (g : Game) : kept g (generateObstacles random g).
Proof.
  unfold generateObstacles, nextRandom, pushObstacle, pushPlatform;
    repeat match goal with
      | |- context [if ?c then _ else _] => destruct c
      | |- context [match arrayGet ?a ?i with _ => _ end] => destruct (arrayGet a i)
      | |- context [match ?f with f_spike => _ | _ => _ end] => destruct f
      end;
    unfold kept; repeat split; exists 0%nat;
    cbn [score set_randomCalls set_obstacles set_platforms]; lia.
Qed.

Lemma updateObstacles_kept (g : Game) : kept g (updateObstacles g).
Proof.
  destruct (updateObstacles_spec g) as (_ & _ & Hs).
  unfold kept. repeat split; try (unfold updateObstacles;
    destruct (updateObstacles_loop _ _ _ _ _); reflexivity).
  eexists. exact Hs.
Qed.

Lemma updateParticles_kept (g : Game) : kept g (updateParticles g).
Proof.
  unfold kept. repeat split. exists 0%nat.
  change (score (updateParticles g)) with (score g). lia.
Qed.

Lemma checkCollisions_kept (g : Game) : kept g (checkCollisions random g).
Proof.
  destruct (checkCollisions_shape random g) as (st & y & vy & ps & k & E).
  rewrite E. apply kept_repose.
Qed.

Lemma jump_kept (g : Game) : kept g (jump random g).
Proof.
  destruct (jump_shape random g) as (vy & gr & ps & k & E).
  rewrite E. apply kept_repose.
Qed.

Lemma autoJump_kept (g : Game) (now : Z) : kept g (fst (autoJump random g now)).
Proof.
  destruct (autoJump_cases random g now) as [E | [E _]]; rewrite E; cbn [fst].
  - apply kept_refl.
  - destruct (jump_kept g) as (Ha & Hs & Hc & Hx & Hw & Hh & k & Hk).
    unfold kept. repeat split; try assumption. exists k. exact Hk.
Qed.

Lemma tickUntilCollisions_kept (g : Game) :
  kept (set_autoMode g (keyPressed (keys g) "KeyA")) (tickUntilCollisions random g).
Proof.
  unfold tickUntilCollisions.
  eapply kept_trans; [|apply checkCollisions_kept].
  eapply kept_trans; [|apply updateParticles_kept].
  eapply kept_trans; [|apply updateObstacles_kept].
  eapply kept_trans; [|apply generateObstacles_kept].
  apply updatePlayer_kept.
Qed.

Lemma tick_kept (g : Game) (now : Z) :
  gameState g = playing ->
  kept (set_autoMode g (keyPressed (keys g) "KeyA")) (tick random g now).
Proof.
  intro Hplay. unfold tick, update. rewrite Hplay.
  pose proof (tickUntilCollisions_kept g) as Hc.
  set (c := tickUntilCollisions random g) in *.
  assert (Hcam : kept (set_autoMode g (keyPressed (keys g) "KeyA")) (updateCamera c)).
  { destruct Hc as (Ha & Hs & Hco & Hx & Hw & Hh & k & Hk).
    unfold kept. repeat split; try assumption. exists k. exact Hk. }
  destruct (autoMode (updateCamera c)); [|exact Hcam].
  eapply kept_trans; [exact Hcam|apply autoJump_kept].
Qed.

(** *** Footprints *)

Lemma generateObstacles_footprints (g : Game) :
  footprints g -> footprints (generateObstacles random g).
Proof.
  intros [Ho Hp].
  unfold footprints, generateObstacles, nextRandom, pushObstacle, pushPlatform.
  repeat match goal with
    | |- context [if ?c then _ else _] => destruct c
    | |- context [match arrayGet ?a ?i with _ => _ end] => destruct (arrayGet a i)
    | |- context [match ?f with f_spike => _ | _ => _ end] => destruct f
    end;
    cbn [obstacles platforms set_randomCalls set_obstacles set_platforms];
    (split;
     repeat (apply Forall_app; split);
     try assumption;
     repeat (apply Forall_cons || apply Forall_nil);
     cbn [Obstacle.type Obstacle.width Obstacle.height Platform.width Platform.height
          newSpike];
     repeat split; try (left; reflexivity); try (right; reflexivity)).
Qed.

Lemma updateObstacles_footprints (g : Game) :
  footprints g -> footprints (updateObstacles g).
Proof.
  intros [Ho Hp]. destruct (updateObstacles_spec g) as (Eo & Ep & _).
  unfold footprints. rewrite Eo, Ep. split.
  - apply incl_Forall with (l1 := map (scrolledObstacle (gameSpeed g)) (obstacles g)).
    + apply incl_filter.
    + apply Forall_map. exact Ho.
  - apply incl_Forall with (l1 := map (scrolledPlatform (gameSpeed g)) (platforms g)).
    + apply incl_filter.
    + apply Forall_map. exact Hp.
Qed.

Lemma tickUntilCollisions_footprints (g : Game) :
  footprints g -> footprints (tickUntilCollisions random g).
Proof.
  intro H.
  assert (H3 : footprints
                 (updateObstacles
                    (generateObstacles random
                       (updatePlayer (set_autoMode g (keyPressed (keys g) "KeyA")))))).
  { apply updateObstacles_footprints, generateObstacles_footprints. exact H. }
  unfold tickUntilCollisions.
  match goal with
  | |- footprints (checkCollisions random ?g4) =>
      destruct (checkCollisions_shape random g4) as (st & y & vy & ps & k & E);
      rewrite E
  end.
  exact H3.
Qed.

(** *** Constants and counters *)

Lemma tickUntilCollisions_constants (g : Game) :
  constants g -> constants (tickUntilCollisions random g).
Proof.
  intros (Hx & Hw & Hh & Hg & Hj & Hc & Ht).
  destruct (tickUntilCollisions_steady random g)
    as (_ & _ & _ & _ & Sg & Sj & _ & _ & _ & Sc).
  destruct (tickUntilCollisions_kept g) as (_ & _ & Kt & Kx & Kw & Kh & _).
  cbn [touchCooldown player set_autoMode] in Kt, Kx, Kw, Kh.
  unfold constants. repeat split; congruence.
Qed.

Lemma tickUntilCollisions_counters (g : Game) :
  counters g -> counters (tickUntilCollisions random g).
Proof.
  intros ((k & Hk) & Hd & Hs & Hc).
  destruct (tickUntilCollisions_steady random g)
    as (_ & _ & Sd & Ss & _ & _ & Sc & _).
  destruct (tickUntilCollisions_kept g) as (_ & _ & _ & _ & _ & _ & k' & Kk).
  cbn [score set_autoMode] in Kk.
  unfold counters. rewrite Sd, Ss, Sc. repeat split; try assumption.
  exists (k + k')%nat. lia.
Qed.

Lemma updateCamera_counters (g : Game) : counters g -> counters (updateCamera g).
Proof.
  intros (Hk & Hd & Hs & Hc). unfold counters, updateCamera. cbn.
  repeat split; try assumption; lra.
Qed.

Lemma tick_invariants (g : Game) (now : Z) :
  constants g /\ counters g /\ footprints g ->
  constants (tick random g now) /\ counters (tick random g now)
  /\ footprints (tick random g now).
Proof.
  intros (Hc & Hn & Hf). unfold tick, update.
  destruct (gameState g); cbn [fst]; try exact (conj Hc (conj Hn Hf)).
  pose proof (tickUntilCollisions_constants g Hc) as Hc1.
  pose proof (updateCamera_counters _ (tickUntilCollisions_counters g Hn)) as Hn1.
  pose proof (tickUntilCollisions_footprints g Hf) as Hf1.
  set (c := tickUntilCollisions random g) in *. clearbody c.
  assert (Hc2 : constants (updateCamera c)) by exact Hc1.
  assert (Hf2 : footprints (updateCamera c)) by exact Hf1.
  generalize dependent (updateCamera c). intros u Hn1 Hc2 Hf2.
  destruct (autoMode u); [|exact (conj Hc2 (conj Hn1 Hf2))].
  destruct (autoJump_cases random u now) as [E | [E _]];
    rewrite E; cbn [fst]; [exact (conj Hc2 (conj Hn1 Hf2))|].
  destruct (jump_shape random u) as (vy & gr & ps & k & Ej).
  rewrite Ej. exact (conj Hc2 (conj Hn1 Hf2)).
Qed.

Lemma jump_invariants (g : Game) :
  constants g /\ counters g /\ footprints g ->
  constants (jump random g) /\ counters (jump random g) /\ footprints (jump random g).
Proof.
  intro H. destruct (jump_shape random g) as (vy & gr & ps & k & Ej).
  rewrite Ej. exact H.
Qed.

Lemma handle_invariants (g : Game) (e : Event) :
  constants g /\ counters g /\ footprints g ->
  constants (fst (handle random g e)) /\ counters (fst (handle random g e))
  /\ footprints (fst (handle random g e)).
Proof.
  intro H. destruct e as [code|code| | |touch|w h|now]; cbn [handle].
  - destruct (String.eqb code "Space"); [|exact H].
    cbn [gameState set_keys]. destruct (gameState g); cbn [fst]; try exact H.
    apply jump_invariants. exact H.
  - exact H.
  - exact H.
  - destruct H as ((Hx & Hw & Hh & Hg & Hj & Hc & Ht) & _ & _).
    cbn [fst]. unfold restartGame, startGame, constants, counters, footprints. cbn.
    repeat split; try assumption; try (exists 0%nat; reflexivity);
      try discriminate; constructor.
  - destruct (touch - touchStartTime g <? touchCooldown g)%Z; [exact H|].
    cbn [gameState set_touchStartTime]. destruct (gameState g); cbn [fst]; try exact H.
    apply jump_invariants. exact H.
  - cbn [fst]. unfold resizeCanvas. cbn [gameState set_gameHeight set_gameWidth].
    destruct (gameState g); try exact H.
    destruct H as ((Hx & Hw & Hh & Hg & Hj & Hc & Ht) & Hn & Hf).
    split; [|split; assumption].
    unfold constants. cbn. repeat split; assumption.
  - pose proof (tick_invariants g now H) as Ht. unfold tick in Ht.
    destruct (update random g now) as [g' jumped]. exact Ht.
Qed.

Lemma reachable_invariants (g : Game) :
  reachable random g -> constants g /\ counters g /\ footprints g.
Proof.
  induction 1 as [w h|g e Hg IH].
  - unfold constants, counters, footprints. cbn.
    repeat split; try (exists 0%nat; reflexivity); try discriminate; constructor.
  - apply handle_invariants. exact IH.
Qed.

End Invariants.

(** X17.  In every state a session can reach, the constants of the game
    hold: the player is at screen [x] = 100 and is 40 by 40, gravity is 0.8,
    the jump force -15, the autoplay cooldown 800 and the touch cooldown
    200. *)
Theorem reachable_constants :
  forall (random : nat -> Q) (g : Game),
    reachable random g ->
    Player.x (player g) = 100
    /\ Player.width (player g) = 40
    /\ Player.height (player g) = 40
    /\ gravity g = 0.8
    /\ jumpForce g = -15
    /\ autoJumpCooldown g = 800%Z
    /\ touchCooldown g = 200%Z.
Proof.
  intros random g H.
  destruct (reachable_invariants random g H) as (Hc & _ & _).
  unfold constants in Hc. exact Hc.
Qed.

(** X18.  In every state a session can reach, the score is a multiple of
    10 that is not negative, the distance is the floor of the camera offset
    divided by 10, the speed is at least 5 and the camera offset is not
    negative. *)
Theorem reachable_counters :
  forall (random : nat -> Q) (g : Game),
    reachable random g ->
    (exists k : nat, score g = (10 * Z.of_nat k)%Z)
    /\ distance g = Qfloor (cameraX g / 10)
    /\ 5 <= gameSpeed g
    /\ 0 <= cameraX g.
Proof.
  intros random g H.
  destruct (reachable_invariants random g H) as (_ & Hc & _).
  unfold counters in Hc. exact Hc.
Qed.

(** X19.  In every state a session can reach, every obstacle is 40 wide,
    every spike 40 high and every block 60 high, and every platform is 20
    thick and 80 or 120 wide: scrolling changes nothing but [x]. *)
Theorem reachable_footprints :
  forall (random : nat -> Q) (g : Game),
    reachable random g ->
    Forall
      (fun o =>
         Obstacle.width o = 40
         /\ Obstacle.height o
            = match Obstacle.type o with spike => 40 | block => 60 end)
      (obstacles g)
    /\ Forall
         (fun p =>
            Platform.height p = 20
            /\ (Platform.width p = 80 \/ Platform.width p = 120))
         (platforms g).
Proof.
  intros random g H.
  destruct (reachable_invariants random g H) as (_ & _ & Hc).
  unfold footprints in Hc. exact Hc.
Qed.

Lemma firstFrame_reachable :
  reachable alwaysZero (fst (handle alwaysZero freshSession (Frame 0))).
Proof.
  apply reachable_handle.
  apply (reachable_handle alwaysZero (newGame 800 600) ClickStart).
  apply reachable_new.
Defined.

Lemma reachable_constants_witness :
  reachable alwaysZero (fst (handle alwaysZero freshSession (Frame 0)))
  /\ Player.x (player (fst (handle alwaysZero freshSession (Frame 0)))) = 100.
Proof.
  split; [exact firstFrame_reachable|].
  exact (proj1 (reachable_constants alwaysZero _ firstFrame_reachable)).
Defined.

Lemma reachable_counters_witness :
  reachable alwaysZero (fst (handle alwaysZero freshSession (Frame 0)))
  /\ 5 <= gameSpeed (fst (handle alwaysZero freshSession (Frame 0))).
Proof.
  split; [exact firstFrame_reachable|].
  exact (proj1 (proj2 (proj2 (reachable_counters alwaysZero _ firstFrame_reachable)))).
Defined.

Lemma reachable_footprints_witness :
  reachable alwaysZero (fst (handle alwaysZero freshSession (Frame 0)))
  /\ Forall
       (fun p =>
          Platform.height p = 20 /\ (Platform.width p = 80 \/ Platform.width p = 120))
       (platforms (fst (handle alwaysZero freshSession (Frame 0)))).
Proof.
  split; [exact firstFrame_reachable|].
  exact (proj2 (reachable_footprints alwaysZero _ firstFrame_reachable)).
Defined.

(** ** The driver: score, phases, requests and keys *)

Section Driver.

Variable random : nat -> Q.

Lemma handle_score (g : Game) (e : Event) :
  e <> ClickRestart ->
  exists k : nat, score (fst (handle random g e)) = (score g + 10 * Z.of_nat k)%Z.
Proof.
  intro Hne.
  assert (Z0 : exists k : nat, score g = (score g + 10 * Z.of_nat k)%Z)
    by (exists 0%nat; lia).
  destruct e as [code|code| | |touch|w h|now]; cbn [handle].
  - destruct (String.eqb code "Space"); [|exact Z0].
    cbn [gameState set_keys]. destruct (gameState g); cbn [fst]; try exact Z0.
    match goal with
    | |- context [jump random ?g1] =>
        destruct (jump_kept random g1) as (_ & _ & _ & _ & _ & _ & k & Hk)
    end.
    exists k. exact Hk.
  - exact Z0.
  - exact Z0.
  - congruence.
  - destruct (touch - touchStartTime g <? touchCooldown g)%Z; [exact Z0|].
    cbn [gameState set_touchStartTime]. destruct (gameState g); cbn [fst]; try exact Z0.
    match goal with
    | |- context [jump random ?g1] =>
        destruct (jump_kept random g1) as (_ & _ & _ & _ & _ & _ & k & Hk)
    end.
    exists k. exact Hk.
  - cbn [fst]. unfold resizeCanvas. cbn [gameState set_gameHeight set_gameWidth].
    destruct (gameState g); exact Z0.
  - destruct (gameState g) eqn:Hst.
    + unfold update. rewrite Hst. exact Z0.
    + destruct (tick_kept random g now Hst) as (_ & _ & _ & _ & _ & _ & k & Hk).
      unfold tick in Hk. destruct (update random g now) as [g' jumped].
      exists k. exact Hk.
    + unfold update. rewrite Hst. exact Z0.
Qed.

(** The obstacle loop ends the run or leaves the phase alone. *)
Lemma checkObstacles_gameState (obs : list Obstacle.t) :
  forall g,
    (snd (checkObstacles random g obs) = true ->
     gameState (fst (checkObstacles random g obs)) = gameOver)
    /\ (snd (checkObstacles random g obs) = false ->
        gameState (fst (checkObstacles random g obs)) = gameState g).
Proof.
  induction obs as [|o rest IH]; intro g; cbn [checkObstacles].
  - split; [discriminate|reflexivity].
  - assert (Ho : (snd (checkObstacle random g o) = true ->
                  gameState (fst (checkObstacle random g o)) = gameOver)
                 /\ (snd (checkObstacle random g o) = false ->
                     gameState (fst (checkObstacle random g o)) = gameState g)).
    { unfold checkObstacle. destruct (Obstacle.type o).
      - destruct (checkSpikeCollision g o); cbn [fst snd];
          split; try discriminate; reflexivity.
      - destruct (blockLanding g o); cbn [fst snd].
        + split; [discriminate|]. intros _.
          destruct (land_shape random g (Obstacle.y o) "#ffaa00") as (ps & k & E).
          rewrite E. reflexivity.
        + destruct (blockOverlap g o); cbn [fst snd];
            split; try discriminate; reflexivity. }
    destruct (checkObstacle random g o) as [g1 stop]. cbn [fst snd] in Ho.
    destruct stop; cbn [fst snd].
    + split; [intros _; apply Ho; reflexivity|discriminate].
    + destruct (IH g1) as [It If]. destruct Ho as [_ Hsame].
      split; [exact It|]. intro H. rewrite (If H). apply Hsame. reflexivity.
Qed.

Lemma checkCollisions_gameState (g : Game) :
  gameState (checkCollisions random g) = gameState g
  \/ gameState (checkCollisions random g) = gameOver.
Proof.
  unfold checkCollisions.
  destruct (checkObstacles_gameState (obstacles g) g) as [Ht Hf].
  destruct (checkObstacles random g (obstacles g)) as [g1 stop]. cbn [fst snd] in *.
  destruct stop.
  - right. apply Ht. reflexivity.
  - left. rewrite checkPlatforms_gameState. apply Hf. reflexivity.
Qed.

Lemma updateObstacles_gameState (g : Game) :
  gameState (updateObstacles g) = gameState g.
Proof.
  unfold updateObstacles. destruct (updateObstacles_loop _ _ _ _ _). reflexivity.
Qed.

Lemma tick_gameState (g : Game) (now : Z) :
  gameState g = playing ->
  gameState (tick random g now) = playing \/ gameState (tick random g now) = gameOver.
Proof.
  intro Hplay.
  destruct (tick_camera random g now Hplay) as (_ & _ & _ & Hst). rewrite Hst.
  unfold tickUntilCollisions.
  match goal with
  | |- context [checkCollisions random ?g4] =>
      destruct (checkCollisions_gameState g4) as [E|E]; rewrite E
  end.
  - left. cbn [gameState updateParticles set_particles].
    rewrite updateObstacles_gameState, generateObstacles_gameState. exact Hplay.
  - right. reflexivity.
Qed.

Lemma handle_keys (g : Game) (e : Event) :
  keys (fst (handle random g e))
  = match e with
    | KeyDown code => (code, true) :: keys g
    | KeyUp code => (code, false) :: keys g
    | _ => keys g
    end.
Proof.
  destruct e as [code|code| | |touch|w h|now]; cbn [handle].
  - destruct (String.eqb code "Space"); [|reflexivity].
    cbn [gameState set_keys]. destruct (gameState g); cbn [fst]; try reflexivity.
    match goal with
    | |- context [jump random ?g1] =>
        destruct (jump_steady random g1) as (_ & _ & _ & _ & _ & _ & _ & Hk & _)
    end.
    exact Hk.
  - reflexivity.
  - reflexivity.
  - reflexivity.
  - destruct (touch - touchStartTime g <? touchCooldown g)%Z; [reflexivity|].
    cbn [gameState set_touchStartTime]. destruct (gameState g); cbn [fst]; try reflexivity.
    match goal with
    | |- context [jump random ?g1] =>
        destruct (jump_steady random g1) as (_ & _ & _ & _ & _ & _ & _ & Hk & _)
    end.
    exact Hk.
  - cbn [fst]. unfold resizeCanvas. cbn [gameState set_gameHeight set_gameWidth].
    destruct (gameState g); reflexivity.
  - unfold update. destruct (gameState g); try reflexivity.
    destruct (tickUntilCollisions_steady random g)
      as (_ & _ & _ & _ & _ & _ & _ & Hk & _).
    set (c := tickUntilCollisions random g) in *. clearbody c.
    change (keys (updateCamera c)) with (keys c).
    assert (Hu : keys (updateCamera c) = keys g) by exact Hk.
    generalize dependent (updateCamera c). intros u Hu.
    destruct (autoMode u); [|exact Hu].
    destruct (autoJump_cases random u now) as [E | [E _]]; rewrite E; cbn [fst].
    + exact Hu.
    + destruct (jump_steady random u) as (_ & _ & _ & _ & _ & _ & _ & Hkj & _).
      change (keys (set_lastAutoJumpTime (jump random u) now))
        with (keys (jump random u)).
      rewrite Hkj. exact Hu.
Qed.

Lemma tick_autoMode (g : Game) (now : Z) :
  gameState g = playing ->
  autoMode (tick random g now) = keyPressed (keys g) "KeyA".
Proof.
  intro Hplay. destruct (tick_kept random g now Hplay) as (Ha & _). exact Ha.
Qed.

(** Without the A key the controller is never run. *)
Lemma handle_no_autoplay (g : Game) (e : Event) :
  keyPressed (keys g) "KeyA" = false ->
  e <> KeyDown "KeyA" ->
  snd (handle random g e) = None
  /\ keyPressed (keys (fst (handle random g e))) "KeyA" = false.
Proof.
  intros Hkey Hne. split.
  - destruct e as [code|code| | |touch|w h|now]; cbn [handle];
      try reflexivity.
    + destruct (String.eqb code "Space"); [|reflexivity].
      cbn [gameState set_keys]. destruct (gameState g); reflexivity.
    + destruct (touch - touchStartTime g <? touchCooldown g)%Z; [reflexivity|].
      cbn [gameState set_touchStartTime]. destruct (gameState g); reflexivity.
    + unfold update. destruct (gameState g); try reflexivity.
      destruct (tickUntilCollisions_kept random g) as (Ha & _).
      cbn [autoMode set_autoMode] in Ha. rewrite Hkey in Ha.
      set (c := tickUntilCollisions random g) in *. clearbody c.
      change (autoMode (updateCamera c)) with (autoMode c). rewrite Ha.
      reflexivity.
  - rewrite handle_keys. destruct e as [code|code| | |touch|w h|now];
      try exact Hkey; cbn [keyPressed].
    + destruct (String.eqb code "KeyA") eqn:E; [|exact Hkey].
      apply String.eqb_eq in E. subst code. exfalso. apply Hne. reflexivity.
    + destruct (String.eqb code "KeyA"); [reflexivity|exact Hkey].
Qed.

End Driver.

(** X20.  Over any run without a restart the score only grows, and by a
    multiple of 10. *)
Theorem score_grows_by_tens :
  forall (random : nat -> Q) (g : Game) (es : list Event),
    ~ In ClickRestart es ->
    exists k : nat, score (fst (run random g es)) = (score g + 10 * Z.of_nat k)%Z.
Proof.
  intros random g es. revert g.
  induction es as [|e rest IH]; intros g Hno; cbn [run].
  - exists 0%nat. cbn [fst]. lia.
  - assert (He : e <> ClickRestart) by (intro Heq; apply Hno; left; exact Heq).
    destruct (handle_score random g e He) as (k1 & H1).
    destruct (handle random g e) as [g1 j]. cbn [fst] in H1.
    assert (Hrest : ~ In ClickRestart rest) by (intro Hin; apply Hno; right; exact Hin).
    destruct (IH g1 Hrest) as (k2 & H2).
    destruct (run random g1 rest) as [g2 js]. cbn [fst] in *.
    exists (k1 + k2)%nat. lia.
Qed.

Lemma score_grows_by_tens_witness :
  ~ In ClickRestart [KeyDown "Space"; Frame 0]
  /\ exists k : nat,
       score (fst (run alwaysHalf freshSession [KeyDown "Space"; Frame 0]))
       = (score freshSession + 10 * Z.of_nat k)%Z.
Proof.
  assert (H : ~ In ClickRestart [KeyDown "Space"; Frame 0]).
  { intros [H|[H|[]]]; discriminate H. }
  split; [exact H|].
  exact (score_grows_by_tens alwaysHalf freshSession [KeyDown "Space"; Frame 0] H).
Defined.

(** X21.  The phase changes only in three ways: a click on Start or on
    Restart enters [playing], and a frame of a playing session can end in
    [gameOver].  Every other event keeps the phase, and a frame outside
    [playing] changes nothing at all. *)
Theorem phase_transitions :
  forall (random : nat -> Q) (g : Game) (e : Event),
    let g' := fst (handle random g e) in
    (gameState g' = gameState g
     \/ (gameState g' = playing /\ (e = ClickStart \/ e = ClickRestart))
     \/ (gameState g = playing /\ gameState g' = gameOver
         /\ exists now, e = Frame now))
    /\ (gameState g <> playing ->
        forall now, handle random g (Frame now) = (g, None)).
Proof.
  intros random g e g'. subst g'. split.
  - destruct e as [code|code| | |touch|w h|now]; cbn [handle].
    + left. destruct (String.eqb code "Space"); [|reflexivity].
      cbn [gameState set_keys]. destruct (gameState g) eqn:Hst; cbn [fst];
        rewrite ?jump_gameState; exact Hst.
    + left. reflexivity.
    + right. left. split; [reflexivity|left; reflexivity].
    + right. left. split; [reflexivity|right; reflexivity].
    + left. destruct (touch - touchStartTime g <? touchCooldown g)%Z; [reflexivity|].
      cbn [gameState set_touchStartTime]. destruct (gameState g) eqn:Hst; cbn [fst];
        rewrite ?jump_gameState; exact Hst.
    + left. cbn [fst]. unfold resizeCanvas. cbn [gameState set_gameHeight set_gameWidth].
      destruct (gameState g) eqn:Hst; exact Hst.
    + destruct (gameState g) eqn:Hst.
      * left. unfold update. rewrite Hst. cbn [fst]. exact Hst.
      * pose proof (tick_gameState random g now Hst) as Ht. unfold tick in Ht.
        destruct (update random g now) as [g1 jumped]. cbn [fst] in *.
        destruct Ht as [Ht|Ht].
        -- left. exact Ht.
        -- right. right. split; [reflexivity|]. split; [exact Ht|].
           exists now. reflexivity.
      * left. unfold update. rewrite Hst. cbn [fst]. exact Hst.
  - intros Hnp now. cbn [handle]. unfold update.
    destruct (gameState g); try reflexivity. exfalso. apply Hnp. reflexivity.
Qed.

(** X22.  A jump request, by the Space key or by a touch, is ignored
    unless the session is playing and the player is grounded: the player,
    the particles and the phase stay as they were. *)
Theorem jump_request_needs_playing_and_grounded :
  forall (random : nat -> Q) (g : Game) (e : Event),
    e = KeyDown "Space" \/ (exists t, e = TouchStart t) ->
    gameState g <> playing \/ Player.isGrounded (player g) = false ->
    let g' := fst (handle random g e) in
    player g' = player g /\ particles g' = particles g /\ gameState g' = gameState g.
Proof.
  intros random g e He Hno. cbv zeta.
  assert (Hj : forall g0, player g0 = player g -> particles g0 = particles g ->
                 gameState g0 = gameState g ->
                 gameState g0 = playing ->
                 player (jump random g0) = player g
                 /\ particles (jump random g0) = particles g
                 /\ gameState (jump random g0) = gameState g).
  { intros g0 Hp Hpa Hs Hplay. destruct Hno as [Hn|Hn].
    - exfalso. apply Hn. rewrite <- Hs. exact Hplay.
    - unfold jump. rewrite Hp, Hn. repeat split; assumption. }
  destruct He as [He|(t & He)]; subst e; cbn [handle].
  - cbn [String.eqb Ascii.eqb Bool.eqb andb gameState set_keys].
    destruct (gameState g) eqn:Hst; cbn [fst];
      try (repeat split; try reflexivity; exact Hst).
    apply Hj; try reflexivity; exact Hst.
  - destruct (t - touchStartTime g <? touchCooldown g)%Z;
      [repeat split; reflexivity|].
    cbn [gameState set_touchStartTime].
    destruct (gameState g) eqn:Hst; cbn [fst];
      try (repeat split; try reflexivity; exact Hst).
    apply Hj; try reflexivity; exact Hst.
Qed.

Lemma jump_request_needs_playing_and_grounded_witness :
  player (fst (handle alwaysHalf freshSession (KeyDown "Space"))) = player freshSession.
Proof.
  refine (proj1 (jump_request_needs_playing_and_grounded alwaysHalf freshSession
                   (KeyDown "Space") (or_introl eq_refl) (or_intror _))).
  reflexivity.
Defined.

(** X23.  The key table remembers the last event of each key: after a
    key-down the key reads as pressed, after a key-up as released, and the
    other keys read as before.  During a frame of a playing session the
    auto mode flag takes the state of the A key. *)
Theorem key_state_round_trip :
  forall (random : nat -> Q) (g : Game) (code other : string),
    keyPressed (keys (fst (handle random g (KeyDown code)))) code = true
    /\ keyPressed (keys (fst (handle random g (KeyUp code)))) code = false
    /\ (other <> code ->
        keyPressed (keys (fst (handle random g (KeyDown code)))) other
        = keyPressed (keys g) other
        /\ keyPressed (keys (fst (handle random g (KeyUp code)))) other
           = keyPressed (keys g) other)
    /\ (gameState g = playing ->
        forall now, autoMode (tick random g now) = keyPressed (keys g) "KeyA").
Proof.
  intros random g code other.
  rewrite !handle_keys. cbn [keyPressed]. rewrite String.eqb_refl.
  split; [reflexivity|]. split; [reflexivity|]. split.
  - intro Hne. apply not_eq_sym in Hne. apply String.eqb_neq in Hne.
    rewrite Hne. split; reflexivity.
  - intros Hplay now. apply tick_autoMode. exact Hplay.
Qed.

(** X24.  The autoplay controller acts only for the A key: in a session
    whose events hold no key-down of the A key, no autoplay jump is ever
    issued. *)
Theorem autoplay_needs_key_A :
  forall (random : nat -> Q) (width height : Q) (es : list Event),
    ~ In (KeyDown "KeyA") es ->
    snd (run random (newGame width height) es) = [].
Proof.
  intros random width height es.
  assert (Hkey : keyPressed (keys (newGame width height)) "KeyA" = false)
    by reflexivity.
  generalize dependent (newGame width height).
  induction es as [|e rest IH]; intros g Hkey Hno; cbn [run]; [reflexivity|].
  assert (He : e <> KeyDown "KeyA") by (intro Heq; apply Hno; left; exact Heq).
  destruct (handle_no_autoplay random g e Hkey He) as [Hj Hk].
  destruct (handle random g e) as [g1 j]. cbn [fst snd] in Hj, Hk. subst j.
  assert (Hrest : ~ In (KeyDown "KeyA") rest)
    by (intro Hin; apply Hno; right; exact Hin).
  specialize (IH g1 Hk Hrest).
  destruct (run random g1 rest) as [g2 js]. cbn [snd] in *. exact IH.
Qed.

Lemma autoplay_needs_key_A_witness :
  ~ In (KeyDown "KeyA") [ClickStart; Frame 0]
  /\ snd (run alwaysHalf (newGame 800 600) [ClickStart; Frame 0]) = [].
Proof.
  assert (H : ~ In (KeyDown "KeyA") [ClickStart; Frame 0]).
  { intros [H|[H|[]]]; discriminate H. }
  split; [exact H|].
  exact (autoplay_needs_key_A alwaysHalf 800 600 [ClickStart; Frame 0] H).
Defined.

(** ** Free flight *)

Lemma updatePlayer_fields (g : Game) :
  gravity (updatePlayer g) = gravity g /\ gameHeight (updatePlayer g) = gameHeight g.
Proof. split; reflexivity. Qed.

Lemma flightDrop_succ (vy gr : Q) (n : nat) :
  flightDrop vy gr (S n)
  == flightDrop vy gr n + (vy + inject_Z (Z.of_nat (S n)) * gr).
Proof.
  unfold flightDrop. rewrite Nat2Z.inj_succ. unfold Z.succ. rewrite inject_Z_plus.
  change (inject_Z 1) with 1. ring.
Qed.

(** X25.  While the ground is not reached, the physics step integrates a
    constant acceleration: after [n] calls of [updatePlayer] the vertical
    velocity is [vy + n * gravity] and the position is
    [y + n * vy + gravity * n * (n + 1) / 2]. *)
Theorem free_flight :
  forall (g : Game) (n : nat),
    (forall k : nat,
       (1 <= k <= n)%nat ->
       Player.y (player g) + flightDrop (Player.velocityY (player g)) (gravity g) k
       + Player.height (player g)
       <= gameHeight g - 50) ->
    let g' := Nat.iter n updatePlayer g in
    Player.velocityY (player g')
    == Player.velocityY (player g) + inject_Z (Z.of_nat n) * gravity g
    /\ Player.y (player g')
       == Player.y (player g)
          + flightDrop (Player.velocityY (player g)) (gravity g) n.
Proof.
  intros g n. induction n as [|n IH]; intro Hfree; cbv zeta.
  - change (Nat.iter 0 updatePlayer g) with g.
    unfold flightDrop. cbn [Z.of_nat]. change (inject_Z 0) with 0.
    split; ring.
  - assert (Hprev : forall k : nat,
              (1 <= k <= n)%nat ->
              Player.y (player g)
              + flightDrop (Player.velocityY (player g)) (gravity g) k
              + Player.height (player g)
              <= gameHeight g - 50)
      by (intros k Hk; apply Hfree; lia).
    destruct (IH Hprev) as [Hv Hy]. clear IH.
    change (Nat.iter (S n) updatePlayer g)
      with (updatePlayer (Nat.iter n updatePlayer g)).
    assert (Hfields : gravity (Nat.iter n updatePlayer g) = gravity g
                      /\ gameHeight (Nat.iter n updatePlayer g) = gameHeight g
                      /\ Player.height (player (Nat.iter n updatePlayer g))
                         = Player.height (player g)).
    { clear. induction n as [|n (IHg & IHh & IHp)]; [repeat split|].
      change (Nat.iter (S n) updatePlayer g)
        with (updatePlayer (Nat.iter n updatePlayer g)).
      destruct (updatePlayer_clamp (Nat.iter n updatePlayer g)) as (Hh & _).
      cbv zeta in Hh. rewrite Hh.
      destruct (updatePlayer_fields (Nat.iter n updatePlayer g)) as [Eg Eh].
      rewrite Eg, Eh. repeat split; assumption. }
    destruct Hfields as (Eg & Eh & Ep).
    set (q := Nat.iter n updatePlayer g) in *.
    destruct (updatePlayer_clamp q) as (_ & _ & Hstep). cbv zeta in Hstep.
    pose proof (Hfree (S n) (conj (le_n_S 0 n (Nat.le_0_l n)) (le_n (S n)))) as Hroom.
    pose proof (flightDrop_succ (Player.velocityY (player g)) (gravity g) n) as Hsucc.
    assert (Hnext : Player.y (player q) + (Player.velocityY (player q) + gravity q)
                    + Player.height (player q) <= gameHeight q - 50).
    { rewrite Eg, Eh, Ep, Hy, Hv.
      rewrite Nat2Z.inj_succ in Hsucc. unfold Z.succ in Hsucc.
      rewrite inject_Z_plus in Hsucc. change (inject_Z 1) with 1 in Hsucc.
      lra. }
    destruct (Hstep Hnext) as [Ey Ev]. rewrite Ey, Ev, Eg, Hy, Hv, Hsucc.
    rewrite Nat2Z.inj_succ. unfold Z.succ. rewrite inject_Z_plus.
    change (inject_Z 1) with 1. split; ring.
Qed.

Lemma free_flight_witness :
  Player.velocityY (player (Nat.iter 2 updatePlayer jumpingSession)) == -15 + 2 * 0.8
  /\ Player.y (player (Nat.iter 2 updatePlayer jumpingSession)) == 510 - 30 + 0.8 * 3.
Proof.
  assert (H : forall k : nat,
            (1 <= k <= 2)%nat ->
            Player.y (player jumpingSession)
            + flightDrop (Player.velocityY (player jumpingSession))
                (gravity jumpingSession) k
            + Player.height (player jumpingSession)
            <= gameHeight jumpingSession - 50).
  { intros k Hk.
    assert (Hc : k = 1%nat \/ k = 2%nat) by lia.
    destruct Hc as [Hc|Hc]; subst k; vm_compute; discriminate. }
  destruct (free_flight jumpingSession 2 H) as [Hv Hy].
  split.
  - rewrite Hv. vm_compute. reflexivity.
  - rewrite Hy. vm_compute. reflexivity.
Defined.

(** X26.  A resize during play puts the player back above the ground line
    of the new viewport: in a reachable playing state, after the resize the
    player is at [y = height - 100], its bottom edge 10 above the line, with
    its velocity unchanged. *)
Theorem resize_keeps_player_above_ground :
  forall (random : nat -> Q) (g : Game) (width height : Q),
    reachable random g ->
    gameState g = playing ->
    let g' := fst (handle random g (Resize width height)) in
    gameWidth g' = width
    /\ gameHeight g' = height
    /\ Player.x (player g') = 100
    /\ Player.y (player g') = height - 100
    /\ Player.velocityY (player g') = Player.velocityY (player g)
    /\ Player.y (player g') + Player.height (player g') == gameHeight g' - 50 - 10.
Proof.
  intros random g width height Hr Hplay.
  destruct (reachable_invariants random g Hr) as ((_ & _ & Hh & _) & _).
  cbv zeta. cbn [handle fst]. unfold resizeCanvas.
  cbn [gameState set_gameHeight set_gameWidth]. rewrite Hplay. cbn.
  repeat split. rewrite Hh. ring.
Qed.

Lemma resize_keeps_player_above_ground_witness :
  reachable alwaysZero freshSession
  /\ gameState freshSession = playing
  /\ Player.y (player (fst (handle alwaysZero freshSession (Resize 1024 768))))
     = 768 - 100.
Proof.
  assert (R : reachable alwaysZero freshSession).
  { apply (reachable_handle alwaysZero (newGame 800 600) ClickStart).
    apply reachable_new. }
  split; [exact R|]. split; [reflexivity|].
  exact (proj1 (proj2 (proj2 (proj2
    (resize_keeps_player_above_ground alwaysZero freshSession 1024 768 R eq_refl))))).
Defined.
